(** * Miles Edgeworth: the sentiment-to-strategy decision engine

    A shallow embedding of [src/lib/my-lawyer/agent.ts], lines 473-665
    (the sentiment module): [analyzeTextScore], [analyzeSentiment],
    [getMoodFromScore] and [getStrategyFromMood], together with the
    fragment of the JavaScript string and regular-expression semantics
    these functions rely on.

    Modelling conventions.
    - A JavaScript string is a [string]; every character stands for one
      UTF-16 code unit in the range 0..255 (ASCII and Latin-1).  On that
      range [toLowerCase] maps one code unit to one code unit.
    - Lexical scores are integers ([Z]).  The decayed history sum is a
      fraction; it is computed in exact rational arithmetic ([Q]), the
      idealisation of the IEEE doubles of the source.  The module
      [Binary64] repeats the aggregation with the rounding operations
      of the doubles left open; what is said about the rounding of the
      total is said there.
    - [Math.round] rounds to the nearest integer, ties upwards. *)

From Stdlib Require Import ZArith QArith Qround Qpower Qminmax Lia List Bool Ascii String.
Import ListNotations.

Local Open Scope string_scope.
Local Open Scope Z_scope.

(** ** JavaScript strings and the three regular expressions *)

Module JsString.

(** [String.prototype.toLowerCase] on one code unit below 256:
    A-Z, and the Latin-1 capitals U+00C0..U+00DE without the
    multiplication sign U+00D7, move up by 32. *)
Definition lowerChar (c : ascii) : ascii :=
  let n := N_of_ascii c in
  if ((65 <=? n) && (n <=? 90)
      || (192 <=? n) && (n <=? 222) && negb (n =? 215))%N
  then ascii_of_N (n + 32)
  else c.

Fixpoint toLowerCase (s : string) : string :=
  match s with
  | EmptyString => EmptyString
  | String c s' => String (lowerChar c) (toLowerCase s')
  end.

(** [s.includes(w)]: [w] occurs in [s] as a contiguous substring. *)
Fixpoint includes (s w : string) : bool :=
  prefix w s
  || match s with
     | EmptyString => false
     | String _ s' => includes s' w
     end.

(** Character classes of the patterns. *)
Definition inRange (lo hi : N) (c : ascii) : bool :=
  let n := N_of_ascii c in ((lo <=? n) && (n <=? hi))%N.

(** [[A-Z]] *)
Definition isUpperAZ (c : ascii) : bool := inRange 65 90 c.

(** [\w], that is [[A-Za-z0-9_]] *)
Definition isWordChar (c : ascii) : bool :=
  inRange 65 90 c || inRange 97 122 c || inRange 48 57 c
  || (N_of_ascii c =? 95)%N.

Definition isChar (d c : ascii) : bool := Ascii.eqb d c.

(** The assertion [\b] between two neighbouring positions; [None] is
    the outside of the string, which counts as a non-word character. *)
Definition isWordAt (c : option ascii) : bool :=
  match c with
  | Some c => isWordChar c
  | None => false
  end.

Definition wordBoundary (before after : option ascii) : bool :=
  xorb (isWordAt before) (isWordAt after).

(** A greedy quantifier over a character class: the length of the
    longest prefix of [s] inside the class. *)
Fixpoint span (p : ascii -> bool) (s : string) : nat :=
  match s with
  | EmptyString => O
  | String c s' => if p c then S (span p s') else O
  end.

(** A matcher tells, from the character before the current position
    and the rest of the string, the length of the match that starts
    here, if there is one. *)
Definition matcher : Type := option ascii -> string -> option nat.

(** [/c{2,}/] for a literal character [c]. *)
Definition matchRun2 (c : ascii) : matcher :=
  fun _ s =>
    let n := span (isChar c) s in
    if (2 <=? n)%nat then Some n else None.

(** The backtracking of [[A-Z]{3,}\b]: from the greedy length [k]
    downwards, the first length of at least 3 after which [\b]
    holds. *)
Fixpoint backtrackCaps (s : string) (k : nat) : option nat :=
  match k with
  | O => None
  | S k' =>
      if (3 <=? k)%nat && wordBoundary (get k' s) (get k s)
      then Some k
      else backtrackCaps s k'
  end.

(** [/\b[A-Z]{3,}\b/] *)
Definition matchCaps : matcher :=
  fun prev s =>
    if wordBoundary prev (get 0 s)
    then backtrackCaps s (span isUpperAZ s)
    else None.

(** [(s.match(/re/g) || []).length]: the matches are searched from
    left to right; after a match of length [n] the search resumes
    [n] characters further (one character further when [n] is 0),
    after a failure one character further.  [skip] counts the
    characters of the last match still to be stepped over. *)
Fixpoint matchCountFrom (m : matcher) (skip : nat) (prev : option ascii)
    (s : string) : nat :=
  match s with
  | EmptyString =>
      match skip, m prev s with
      | O, Some _ => 1
      | _, _ => 0
      end
  | String c rest =>
      match skip with
      | S k => matchCountFrom m k (Some c) rest
      | O =>
          match m prev s with
          | Some n => S (matchCountFrom m (Nat.pred n) (Some c) rest)
          | None => matchCountFrom m O (Some c) rest
          end
      end
  end.

Definition matchCount (m : matcher) (s : string) : nat :=
  matchCountFrom m O None s.

End JsString.

Import JsString.

(** ** The lexicons *)

Definition ANGER_WORDS : list string :=
  [ "stupid"; "wrong"; "disagree"; "hate"; "terrible"; "useless"; "bad";
    "worst"; "awful"; "ridiculous"; "nonsense"; "garbage"; "trash"; "liar";
    "fake"; "scam" ].

Definition SKEPTICAL_PHRASES : list string :=
  [ "i don't think"; "i dont think"; "that's not true"; "thats not true";
    "prove it"; "not convinced"; "i doubt"; "unlikely"; "hard to believe";
    "show me proof"; "yeah right"; "sure..."; "really?"; "are you sure";
    "i'm not sure"; "im not sure" ].

Definition POSITIVE_WORDS : list string :=
  [ "great"; "awesome"; "excellent"; "amazing"; "impressive"; "wonderful";
    "fantastic"; "love"; "thank"; "thanks"; "please"; "interesting"; "cool";
    "nice"; "good"; "helpful" ].

(** ** [analyzeTextScore] *)

(** One [for (const word of LEXICON) if (lower.includes(word)) score += d]
    loop. *)
Definition lexiconLoop (lower : string) (delta : Z) (lexicon : list string)
    (score : Z) : Z :=
  fold_left
    (fun score word => if includes lower word then score + delta else score)
    lexicon score.

Definition analyzeTextScore (text : string) : Z :=
  let lower := toLowerCase text in
  let score := 0 in
  let score := lexiconLoop lower 15 ANGER_WORDS score in
  let score := lexiconLoop lower 10 SKEPTICAL_PHRASES score in
  let score := lexiconLoop lower (-8) POSITIVE_WORDS score in
  let capsWords := matchCount matchCaps text in
  let score := score + Z.of_nat capsWords * 12 in
  let multiExclamation := matchCount (matchRun2 "!") text in
  let multiQuestion := matchCount (matchRun2 "?") text in
  score + Z.of_nat (multiExclamation + multiQuestion) * 8.

(** ** Moods, strategies and the result record *)

Inductive Mood : Type := POSITIVE | NEUTRAL | SKEPTICAL | HOSTILE.

Inductive Strategy : Type := AGGRESSIVE | ASSERTIVE | DIPLOMATIC | YIELDING.

Record SentimentResult : Type := mkSentimentResult
  { mood : Mood;
    score : Z;
    strategy : Strategy }.

Record HistoryEntry : Type := mkHistoryEntry
  { role : string;
    content : string }.

(** ** [getMoodFromScore] *)

Definition getMoodFromScore (score : Z) : Mood :=
  if 70 <=? score then HOSTILE
  else if 40 <=? score then SKEPTICAL
  else if 20 <=? score then NEUTRAL
  else POSITIVE.

(** ** [getStrategyFromMood] *)

(** At run time a [Mood] is the string that names it. *)
Definition moodTag (m : Mood) : string :=
  match m with
  | POSITIVE => "POSITIVE"
  | NEUTRAL => "NEUTRAL"
  | SKEPTICAL => "SKEPTICAL"
  | HOSTILE => "HOSTILE"
  end.

(** The [case] labels of the [switch], in source order, each with the
    value its branch returns. *)
Definition strategyCases : list (string * Strategy) :=
  [ ("POSITIVE", AGGRESSIVE);
    ("NEUTRAL", ASSERTIVE);
    ("SKEPTICAL", DIPLOMATIC);
    ("HOSTILE", YIELDING) ].

(** The first [case] whose label is strictly equal to the scrutinee;
    [None] when control falls to [default]. *)
Fixpoint switchCase (tag : string) (cases : list (string * Strategy))
    : option Strategy :=
  match cases with
  | [] => None
  | (label, result) :: cases' =>
      if String.eqb tag label then Some result else switchCase tag cases'
  end.

Definition switchStrategy (tag : string) : Strategy :=
  match switchCase tag strategyCases with
  | Some result => result
  | None => ASSERTIVE
  end.

Definition getStrategyFromMood (mood : Mood) : Strategy :=
  switchStrategy (moodTag mood).

(** ** [analyzeSentiment] *)

Definition decayFactor : Q := 6 # 10.

(** [Math.round]: the nearest integer, a tie going up. *)
Definition Math_round (x : Q) : Z := Qfloor (x + (1 # 2)).

Definition isUser (m : HistoryEntry) : bool := String.eqb (role m) "user".

(** The body of the [for] loop at index [i]; the loop guard
    [i < userMessages.length] keeps [userMessages[i]] defined. *)
Definition historyStep (userMessages : list HistoryEntry) (totalScore : Q)
    (i : nat) : Q :=
  let len := Z.of_nat (List.length userMessages) in
  let messageAge := len - 1 - Z.of_nat i in
  let weight := Qpower decayFactor (len - 1 - messageAge) in
  match nth_error userMessages i with
  | Some m =>
      let messageScore := analyzeTextScore (content m) in
      (totalScore + inject_Z messageScore * weight)%Q
  | None => totalScore
  end.

(** [for (let i = 0; i < userMessages.length; i++)] *)
Definition historyLoop (userMessages : list HistoryEntry) (totalScore : Q) : Q :=
  fold_left (historyStep userMessages)
    (seq 0 (List.length userMessages)) totalScore.

(** The value of [totalScore] after the [if (history && ...)] block. *)
Definition historyScore (history : option (list HistoryEntry)) : Q :=
  let totalScore := 0%Q in
  match history with
  | Some h =>
      if (0 <? List.length h)%nat
      then historyLoop (filter isUser h) totalScore
      else totalScore
  | None => totalScore
  end.

(** The value of [totalScore] when [finalScore] is computed. *)
Definition totalScore (text : string) (history : option (list HistoryEntry))
    : Q :=
  (historyScore history + inject_Z (analyzeTextScore text))%Q.

Definition analyzeSentiment (text : string)
    (history : option (list HistoryEntry)) : SentimentResult :=
  let totalScore := totalScore text history in
  let finalScore := Z.max 0 (Z.min (Math_round totalScore) 100) in
  let mood := getMoodFromScore finalScore in
  let strategy := getStrategyFromMood mood in
  {| mood := mood; score := finalScore; strategy := strategy |}.

Definition getStrategy (text : string) (history : option (list HistoryEntry))
    : Strategy :=
  strategy (analyzeSentiment text history).

Definition user (text : string) : HistoryEntry :=
  {| role := "user"; content := text |}.

Definition assistant (text : string) : HistoryEntry :=
  {| role := "assistant"; content := text |}.

(** ** The decay rule as the design document words it *)

(** A sum of the turns' raw scores, turn number [i] (the oldest is
    number [i0]) taken with weight [w i]. *)
Fixpoint weightedSum (w : nat -> Q) (i0 : nat) (turns : list HistoryEntry)
    : Q :=
  match turns with
  | [] => 0%Q
  | m :: rest =>
      (inject_Z (analyzeTextScore (content m)) * w i0
       + weightedSum w (S i0) rest)%Q
  end.

(** The user-authored turns of a history, oldest first. *)
Definition retainedTurns (history : option (list HistoryEntry))
    : list HistoryEntry :=
  match history with
  | Some h => filter isUser h
  | None => []
  end.

(** "Turn [i] of [N] retained turns receives weight
    [decayFactor ^ (N-1-i)]". *)
Definition specWeight (N i : nat) : Q :=
  Qpower decayFactor (Z.of_nat N - 1 - Z.of_nat i).

Definition specTotal (text : string) (history : option (list HistoryEntry))
    : Q :=
  let turns := retainedTurns history in
  (weightedSum (specWeight (List.length turns)) 0 turns
   + inject_Z (analyzeTextScore text))%Q.

Definition specScore (text : string) (history : option (list HistoryEntry))
    : Z :=
  Z.max 0 (Z.min (Math_round (specTotal text history)) 100).

(** The weight the loop of the source gives to turn [i]. *)
Definition loopWeight (i : nat) : Q := Qpower decayFactor (Z.of_nat i).

(** [r] is a nearest integer of [x], a tie going up. *)
Definition nearestInteger (x : Q) (r : Z) : Prop :=
  (inject_Z r - (1 # 2) <= x /\ x < inject_Z r + (1 # 2))%Q.

(** ** Vocabulary of the statements *)

Definition clamp100 (z : Z) : Z := Z.max 0 (Z.min z 100).

(** The result that a final score determines. *)
Definition resultOfScore (finalScore : Z) : SentimentResult :=
  {| mood := getMoodFromScore finalScore;
     score := finalScore;
     strategy := getStrategyFromMood (getMoodFromScore finalScore) |}.

(** The bands of the threshold table, on the scores 0..100. *)
Definition inBand (m : Mood) (s : Z) : Prop :=
  match m with
  | HOSTILE => 70 <= s <= 100
  | SKEPTICAL => 40 <= s < 70
  | NEUTRAL => 20 <= s < 40
  | POSITIVE => 0 <= s < 20
  end.

Definition moodOfStrategy (st : Strategy) : Mood :=
  match st with
  | AGGRESSIVE => POSITIVE
  | ASSERTIVE => NEUTRAL
  | DIPLOMATIC => SKEPTICAL
  | YIELDING => HOSTILE
  end.

(** The lexicon entries that occur in a lower-cased text. *)
Definition entriesPresent (lower : string) (lexicon : list string)
    : list string :=
  filter (includes lower) lexicon.

Definition presentCount (lower : string) (lexicon : list string) : Z :=
  Z.of_nat (List.length (entriesPresent lower lexicon)).

(** [n] copies of [unit], one after the other. *)
Fixpoint repeatText (unit : string) (n : nat) : string :=
  match n with
  | O => ""
  | S n' => unit ++ repeatText unit n'
  end.

Fixpoint mem (c : ascii) (alphabet : string) : bool :=
  match alphabet with
  | EmptyString => false
  | String a alphabet' => Ascii.eqb c a || mem c alphabet'
  end.

(** Every character of [s] belongs to [alphabet]. *)
Fixpoint allIn (alphabet s : string) : bool :=
  match s with
  | EmptyString => true
  | String c s' => mem c alphabet && allIn alphabet s'
  end.

(** The positions where a copy of a unit that ends in a blank can
    start: the beginning of the text, or just after a blank. *)
Definition atUnitStart (prev : option ascii) : Prop :=
  prev = None \/ prev = Some " "%char.

(** ** [analyzeSentiment] in the arithmetic of the source

    The source keeps [totalScore] in a binary64 double.  Every finite
    double is a rational number, so its value is a [Q]; what exact
    rational arithmetic cannot give is the rounding of each operation.
    In this module the three operations of the loop that round are
    parameters, of which nothing is assumed: [Math_pow] for
    [Math.pow(decayFactor, exponent)], [mul64] for the product
    [messageScore * weight] and [add64] for the two [totalScore += ...].
    The integer scores, [Math.round], [Math.max] and [Math.min] are
    exact on doubles and stay as they were.  With [Qpower], [Qmult] and
    [Qplus] for the parameters the definitions are those given above. *)

Module Binary64.

Section Arithmetic.

Variable Math_pow : Q -> Z -> Q.
Variable mul64 : Q -> Q -> Q.
Variable add64 : Q -> Q -> Q.

(** The body of the [for] loop at index [i]. *)
Definition historyStep (userMessages : list HistoryEntry) (totalScore : Q)
    (i : nat) : Q :=
  let len := Z.of_nat (List.length userMessages) in
  let messageAge := len - 1 - Z.of_nat i in
  let weight := Math_pow decayFactor (len - 1 - messageAge) in
  match nth_error userMessages i with
  | Some m =>
      let messageScore := analyzeTextScore (content m) in
      add64 totalScore (mul64 (inject_Z messageScore) weight)
  | None => totalScore
  end.

(** [for (let i = 0; i < userMessages.length; i++)] *)
Definition historyLoop (userMessages : list HistoryEntry) (totalScore : Q)
    : Q :=
  fold_left (historyStep userMessages)
    (seq 0 (List.length userMessages)) totalScore.

(** The value of [totalScore] after the [if (history && ...)] block. *)
Definition historyScore (history : option (list HistoryEntry)) : Q :=
  let totalScore := 0%Q in
  match history with
  | Some h =>
      if (0 <? List.length h)%nat
      then historyLoop (filter isUser h) totalScore
      else totalScore
  | None => totalScore
  end.

(** The value of [totalScore] when [finalScore] is computed. *)
Definition totalScore (text : string) (history : option (list HistoryEntry))
    : Q :=
  add64 (historyScore history) (inject_Z (analyzeTextScore text)).

Definition analyzeSentiment (text : string)
    (history : option (list HistoryEntry)) : SentimentResult :=
  let totalScore := totalScore text history in
  let finalScore := Z.max 0 (Z.min (Math_round totalScore) 100) in
  let mood := getMoodFromScore finalScore in
  let strategy := getStrategyFromMood mood in
  {| mood := mood; score := finalScore; strategy := strategy |}.

(** The weighted history sum, read off the turns: starting from
    [totalScore], the turn number [i] adds its raw score times
    [Math_pow decayFactor i], the oldest turn first. *)
Fixpoint weightedFrom (i : nat) (totalScore : Q) (turns : list HistoryEntry)
    : Q :=
  match turns with
  | [] => totalScore
  | m :: rest =>
      weightedFrom (S i)
        (add64 totalScore
           (mul64 (inject_Z (analyzeTextScore (content m)))
              (Math_pow decayFactor (Z.of_nat i))))
        rest
  end.

End Arithmetic.

End Binary64.

(** * The rest of the agent, file-processor, prompt and router modules

    The functions around the sentiment module: the pure helpers of
    [agent.ts] ([extractKeywords], [chunkText], [detectQueryType],
    [searchEvidence] on loaded evidence, [moodToSprite], the response
    record that [chat] builds), the synchronous part of the file
    processor ([getFileType], [getMimeTypeFromExtension],
    [validateFiles], [detectUrls]), [shouldTriggerObjection] and its use
    in the chat route, [isAnimatedSprite] and [findRoute].  Strings are
    modelled as before; sizes and counts are natural numbers, exact as
    long as they stay below 2^53. *)

From Stdlib Require Import Sorted Permutation Lqa.

(** ** Further string methods *)

Module JsText.

(** [\s], and the characters that [trim] removes, below 256: tab, line
    feed, vertical tab, form feed, carriage return, space and no-break
    space. *)
Definition isSpace (c : ascii) : bool :=
  let n := N_of_ascii c in
  ((9 <=? n) && (n <=? 13) || (n =? 32) || (n =? 160))%N.

Fixpoint trimStart (s : string) : string :=
  match s with
  | EmptyString => EmptyString
  | String c s' => if isSpace c then trimStart s' else s
  end.

Fixpoint trimEnd (s : string) : string :=
  match s with
  | EmptyString => EmptyString
  | String c s' =>
      match trimEnd s' with
      | EmptyString => if isSpace c then EmptyString else String c EmptyString
      | t => String c t
      end
  end.

(** [s.trim()] *)
Definition trim (s : string) : string := trimEnd (trimStart s).

(** [s.replace(/[C]/g, r)] for a character class [C] and a single
    character [r]. *)
Fixpoint replaceChars (inClass : ascii -> bool) (r : ascii) (s : string)
    : string :=
  match s with
  | EmptyString => EmptyString
  | String c s' =>
      String (if inClass c then r else c) (replaceChars inClass r s')
  end.

(** A separator pattern tells the length of its match at the start of
    the rest of the string, if it matches there. *)
Definition separator : Type := string -> option nat.

(** [s.split(/re/)] for a pattern that matches no empty string: the
    text is cut at every match, searched from left to right; [piece] is
    the part read since the last cut and [skip] counts the characters of
    the current separator still to be stepped over. *)
Fixpoint splitFrom (sep : separator) (skip : nat) (piece : string)
    (s : string) : list string :=
  match s with
  | EmptyString => [piece]
  | String c rest =>
      match skip with
      | S k => splitFrom sep k piece rest
      | O =>
          match sep s with
          | Some (S n) => piece :: splitFrom sep n EmptyString rest
          | _ => splitFrom sep O (piece ++ String c EmptyString) rest
          end
      end
  end.

Definition split (sep : separator) (s : string) : list string :=
  splitFrom sep O EmptyString s.

(** [/\s+/] *)
Definition sepSpaces : separator :=
  fun s =>
    let n := span isSpace s in
    if (1 <=? n)%nat then Some n else None.

Definition isNewline (c : option ascii) : bool :=
  match c with
  | Some c => (N_of_ascii c =? 10)%N
  | None => false
  end.

(** The backtracking of [\s*\n] after the first line feed: from the
    greedy number [k] of blanks downwards, the first number after which
    a line feed follows. *)
Fixpoint backtrackBlank (s : string) (k : nat) : option nat :=
  if isNewline (get (S k) s) then Some (k + 2)%nat
  else
    match k with
    | O => None
    | S k' => backtrackBlank s k'
    end.

(** [/\n\s*\n/] *)
Definition sepBlankLine : separator :=
  fun s =>
    match s with
    | String c rest =>
        if isNewline (Some c) then backtrackBlank s (span isSpace rest)
        else None
    | EmptyString => None
    end.

(** [s.endsWith(suffix)] *)
Definition endsWith (s suffix : string) : bool :=
  let n := String.length s in
  let k := String.length suffix in
  (k <=? n)%nat && String.eqb (substring (n - k) k s) suffix.

(** [array.includes(x)] on an array of strings. *)
Definition arrayIncludes (array : list string) (x : string) : bool :=
  existsb (String.eqb x) array.

(** [a || b] on strings: the empty string is the only falsy one. *)
Definition orElse (a b : string) : string :=
  match a with
  | EmptyString => b
  | _ => a
  end.

(** [s.substring(n)]: [s] without its first [n] characters. *)
Fixpoint dropChars (n : nat) (s : string) : string :=
  match n, s with
  | O, _ => s
  | S n', EmptyString => EmptyString
  | S n', String _ s' => dropChars n' s'
  end.

(** The code units of a string. *)
Definition units (s : string) : list N :=
  map N_of_ascii (list_ascii_of_string s).

(** [String.prototype.toUpperCase] on one code unit below 256.  The
    result is a list of code units: a-z and the Latin-1 small letters
    U+00E0..U+00FE without the division sign U+00F7 move down by 32, the
    sharp s U+00DF becomes "SS", the micro sign U+00B5 becomes U+039C
    and y with diaeresis U+00FF becomes U+0178.  Beyond this range a
    character can have a small form below 128 and be its own capital
    (the Kelvin sign U+212A, small form k), so no statement below
    relies on a lower-cased text having the upper-case form of the
    text itself. *)
Definition upperUnits (c : ascii) : list N :=
  let n := N_of_ascii c in
  if ((97 <=? n) && (n <=? 122)
      || (224 <=? n) && (n <=? 254) && negb (n =? 247))%N
  then [(n - 32)%N]
  else if (n =? 223)%N then [83%N; 83%N]
  else if (n =? 181)%N then [924%N]
  else if (n =? 255)%N then [376%N]
  else [n].

Definition toUpperCase (s : string) : list N :=
  flat_map upperUnits (list_ascii_of_string s).

(** Strict equality of two strings given by their code units. *)
Fixpoint unitsEqb (a b : list N) : bool :=
  match a, b with
  | [], [] => true
  | x :: a', y :: b' => (x =? y)%N && unitsEqb a' b'
  | _, _ => false
  end.

(** [parts.join(sep)] on code units. *)
Fixpoint join (sep : list N) (parts : list (list N)) : list N :=
  match parts with
  | [] => []
  | [p] => p
  | p :: rest => (p ++ sep ++ join sep rest)%list
  end.

End JsText.

Import JsText.

(** ** agent.ts: [extractKeywords], [chunkText], [detectQueryType] *)

Definition extractKeywords (text : string) : list string :=
  filter (fun word => (2 <? String.length word)%nat)
    (split sepSpaces
       (replaceChars (fun c => negb (isWordChar c || isSpace c)) " "
          (toLowerCase text))).

Definition chunkText (text : string) : list string :=
  let rawChunks := split sepBlankLine text in
  filter (fun chunk => (0 <? String.length chunk)%nat)
    (map (fun chunk => trim chunk) rawChunks).

Inductive QueryType : Type := brief | default | detailed.

Definition briefKeywords : list string :=
  [ "generally"; "general"; "briefly"; "quick"; "short"; "summary";
    "summarize" ].

Definition detailedKeywords : list string :=
  [ "detail"; "in-depth"; "explain"; "elaborate"; "comprehensive";
    "deep dive"; "specifics" ].

Definition detectQueryType (query : string) : QueryType :=
  let lowerQuery := toLowerCase query in
  if existsb (fun k => includes lowerQuery k) briefKeywords then brief
  else if existsb (fun k => includes lowerQuery k) detailedKeywords
       then detailed
       else default.

(** ** agent.ts: [searchEvidence] *)

Module EvidenceDoc.
Record t : Type := mk
  { type : string;
    content : string;
    keywords : list string }.
End EvidenceDoc.

(** The objects [{ doc, score: matches }]. *)
Module Scored.
Record t : Type := mk
  { doc : EvidenceDoc.t;
    score : nat }.
End Scored.

(** [scored.sort((a, b) => b.score - a.score)]: the sort of an array is
    stable, so the result is the one of inserting the elements, from the
    last to the first, each before the first element that does not
    score more. *)
Fixpoint insertByScore (x : Scored.t) (sorted : list Scored.t)
    : list Scored.t :=
  match sorted with
  | [] => [x]
  | y :: sorted' =>
      if (Scored.score y <=? Scored.score x)%nat
      then x :: sorted
      else y :: insertByScore x sorted'
  end.

Fixpoint sortByScore (scored : list Scored.t) : list Scored.t :=
  match scored with
  | [] => []
  | x :: scored' => insertByScore x (sortByScore scored')
  end.

Definition newline : list N := [10%N].

(** [`[${d.type.toUpperCase()}]\n${d.content}`] *)
Definition evidenceBlock (d : EvidenceDoc.t) : list N :=
  (units "[" ++ toUpperCase (EvidenceDoc.type d) ++ units "]" ++ newline
   ++ units (EvidenceDoc.content d))%list.

Definition blockSeparator : list N :=
  (newline ++ newline ++ units "---" ++ newline ++ newline)%list.

(** [searchEvidence], with the evidence that [loadEvidence] resolves to
    as a parameter. *)
Definition searchEvidence (evidence : list EvidenceDoc.t) (query : string)
    : list N :=
  let queryKeywords := extractKeywords query in
  let scored :=
    map (fun doc =>
           let matches :=
             List.length
               (filter (fun kw => arrayIncludes (EvidenceDoc.keywords doc) kw)
                  queryKeywords) in
           {| Scored.doc := doc; Scored.score := matches |})
        evidence in
  let scored := sortByScore scored in
  let relevant :=
    firstn 3 (filter (fun s => (0 <? Scored.score s)%nat) scored) in
  if (List.length relevant =? 0)%nat
  then join blockSeparator (map evidenceBlock evidence)
  else join blockSeparator
         (map (fun r => evidenceBlock (Scored.doc r)) relevant).

(** ** agent.ts: [moodToSprite] and the response that [chat] builds *)

Inductive SpriteState : Type :=
  idle | thinking | presenting | pointing | confident.

(** The [case] labels of the [switch], in source order, each with the
    value that control reaches from it. *)
Definition spriteCases : list (string * SpriteState) :=
  [ ("OBJECTING", pointing);
    ("POINTING", pointing);
    ("CONFIDENT", confident);
    ("SMIRKING", confident);
    ("THINKING", thinking);
    ("PRESENTING", presenting);
    ("SERIOUS", presenting);
    ("EXPLAINING", presenting) ].

Fixpoint switchSprite (tag : list N) (cases : list (string * SpriteState))
    : option SpriteState :=
  match cases with
  | [] => None
  | (label, result) :: cases' =>
      if unitsEqb tag (units label) then Some result
      else switchSprite tag cases'
  end.

Definition moodToSprite (mood : string) : SpriteState :=
  match switchSprite (toUpperCase mood) spriteCases with
  | Some result => result
  | None => presenting
  end.

(** ** prompts.ts: [shouldTriggerObjection] *)

Definition shouldTriggerObjection (text mood : string) : bool :=
  match text with
  | EmptyString => false
  | _ =>
      String.eqb mood "OBJECTING"
      || includes (toLowerCase text) "objection!"
      || includes (toLowerCase text) "hold it!"
  end.

(** ** The end of [chat] and its use in the chat route *)

Module ChatResponse.
Record t : Type := mk
  { text : string;
    chunks : list string;
    spriteState : SpriteState;
    mood : string;
    isObjection : bool;
    queryType : option QueryType }.
End ChatResponse.

Definition fallbackText : string :=
  "The evidence requires further examination...".

(** agent.ts, lines 382-406: the response built from the mood tag and
    from the cleaned text; [beforeTrim] is the cleaned text just before
    its final [trim()]. *)
Definition chatResponse (moodTag beforeTrim : string)
    (queryType : QueryType) : ChatResponse.t :=
  let cleanText := trim beforeTrim in
  let spriteState := moodToSprite moodTag in
  let isObjection :=
    String.eqb moodTag "OBJECTING"
    || includes (toLowerCase cleanText) "objection!" in
  let chunks := chunkText (orElse cleanText fallbackText) in
  {| ChatResponse.text := orElse cleanText fallbackText;
     ChatResponse.chunks := chunks;
     ChatResponse.spriteState := spriteState;
     ChatResponse.mood := moodTag;
     ChatResponse.isObjection := isObjection;
     ChatResponse.queryType := Some queryType |}.

Definition technicalDifficulties : string :=
  "Objection! Technical difficulties in the courtroom. Please try again.".

(** agent.ts, lines 421-430: the response returned when the request to
    the model fails. *)
Definition chatErrorResponse : ChatResponse.t :=
  {| ChatResponse.text := technicalDifficulties;
     ChatResponse.chunks := [technicalDifficulties];
     ChatResponse.spriteState := thinking;
     ChatResponse.mood := "THINKING";
     ChatResponse.isObjection := false;
     ChatResponse.queryType := None |}.

(** chat/route.ts, line 87: the [isObjection] that the route sends. *)
Definition routeIsObjection (response : ChatResponse.t) : bool :=
  shouldTriggerObjection (ChatResponse.text response)
    (ChatResponse.mood response).

(** ** file-processor.ts: [getFileType], [getMimeTypeFromExtension],
    [validateFiles] *)

(** The fields of a browser [File] that the module reads.  A size is a
    number of bytes, a natural number. *)
Module File.
Record t : Type := mk
  { name : string;
    type : string;
    size : N }.
End File.

Inductive FileKind : Type := image | document.

Inductive FileStatus : Type := pending | processing | ready | error.

Module FileAttachment.
Record t : Type := mk
  { id : string;
    name : string;
    type : FileKind;
    mimeType : string;
    size : N;
    content : string;
    status : FileStatus;
    error : option string;
    preview : option string }.
End FileAttachment.

Definition MAX_FILE_SIZE : N := 10 * 1024 * 1024.
Definition MAX_TOTAL_SIZE : N := 20 * 1024 * 1024.
Definition MAX_FILES : nat := 5.

Definition SUPPORTED_IMAGE_TYPES : list string :=
  [ "image/jpeg"; "image/png"; "image/gif"; "image/webp" ].

Definition SUPPORTED_DOCUMENT_TYPES : list string :=
  [ "application/pdf";
    "application/vnd.openxmlformats-officedocument.wordprocessingml.document";
    "text/plain"; "text/markdown"; "text/csv" ].

Definition SUPPORTED_EXTENSIONS : list (string * string) :=
  [ (".jpg", "image/jpeg");
    (".jpeg", "image/jpeg");
    (".png", "image/png");
    (".gif", "image/gif");
    (".webp", "image/webp");
    (".pdf", "application/pdf");
    (".docx",
     "application/vnd.openxmlformats-officedocument.wordprocessingml.document");
    (".txt", "text/plain");
    (".md", "text/markdown");
    (".csv", "text/csv") ].

(** [record[key]] on an object literal with string values; an absent
    key gives [undefined] ([None]).  The keys looked up below are empty
    or start with a dot, which no inherited property does. *)
Fixpoint lookup (record : list (string * string)) (key : string)
    : option string :=
  match record with
  | [] => None
  | (k, v) :: record' =>
      if String.eqb key k then Some v else lookup record' key
  end.

Definition notDot (c : ascii) : bool := negb (Ascii.eqb c ".").

(** [s.match(/\.[^.]+$/)?.[0]]: the leftmost position with a dot that is
    followed, up to the end of the text, by one or more characters
    other than a dot. *)
Fixpoint extensionMatch (s : string) : option string :=
  match s with
  | EmptyString => None
  | String c rest =>
      if Ascii.eqb c "."
         && (1 <=? span notDot rest)%nat
         && (span notDot rest =? String.length rest)%nat
      then Some s
      else extensionMatch rest
  end.

Definition getMimeTypeFromExtension (filename : string) : string :=
  let ext :=
    match extensionMatch (toLowerCase filename) with
    | Some m => orElse m ""
    | None => ""
    end in
  match lookup SUPPORTED_EXTENSIONS ext with
  | Some mime => orElse mime ""
  | None => ""
  end.

Definition getFileType (file : File.t) : option FileKind :=
  let mimeType :=
    orElse (File.type file) (getMimeTypeFromExtension (File.name file)) in
  if arrayIncludes SUPPORTED_IMAGE_TYPES mimeType then Some image
  else if arrayIncludes SUPPORTED_DOCUMENT_TYPES mimeType then Some document
  else None.

Record Validation : Type := mkValidation
  { valid : list File.t;
    errors : list string }.

(** The variables the loop of [validateFiles] updates. *)
Record ValidationState : Type := mkValidationState
  { newTotalSize : N;
    validSoFar : list File.t;
    errorsSoFar : list string }.

Definition pushError (st : ValidationState) (message : string)
    : ValidationState :=
  {| newTotalSize := newTotalSize st;
     validSoFar := validSoFar st;
     errorsSoFar := (errorsSoFar st ++ [message])%list |}.

(** The body of [for (const file of files)]. *)
Definition validateStep (st : ValidationState) (file : File.t)
    : ValidationState :=
  match getFileType file with
  | None => pushError st (File.name file ++ ": Unsupported file type")
  | Some _ =>
      if (MAX_FILE_SIZE <? File.size file)%N
      then pushError st (File.name file ++ ": Exceeds 10MB limit")
      else if (MAX_TOTAL_SIZE <? newTotalSize st + File.size file)%N
      then pushError st (File.name file ++ ": Would exceed 20MB total limit")
      else
        {| newTotalSize := (newTotalSize st + File.size file)%N;
           validSoFar := (validSoFar st ++ [file])%list;
           errorsSoFar := errorsSoFar st |}
  end.

Definition validateFiles (files : list File.t)
    (existingFiles : list FileAttachment.t) : Validation :=
  let totalExistingSize :=
    fold_left (fun sum f => (sum + FileAttachment.size f)%N) existingFiles 0%N
  in
  if (MAX_FILES <? List.length existingFiles + List.length files)%nat
  then {| valid := []; errors := ["Maximum 5 files allowed"] |}
  else
    let st :=
      fold_left validateStep files
        {| newTotalSize := totalExistingSize;
           validSoFar := [];
           errorsSoFar := [] |} in
    {| valid := validSoFar st; errors := errorsSoFar st |}.

(** ** file-processor.ts: [detectUrls] *)

(** [text.match(/re/g) || []]: the matched substrings, found as
    [matchCountFrom] finds them. *)
Fixpoint matchAllFrom (m : matcher) (skip : nat) (prev : option ascii)
    (s : string) : list string :=
  match s with
  | EmptyString =>
      match skip, m prev s with
      | O, Some n => [substring 0 n s]
      | _, _ => []
      end
  | String c rest =>
      match skip with
      | S k => matchAllFrom m k (Some c) rest
      | O =>
          match m prev s with
          | Some n =>
              substring 0 n s :: matchAllFrom m (Nat.pred n) (Some c) rest
          | None => matchAllFrom m O (Some c) rest
          end
      end
  end.

Definition matchAll (m : matcher) (s : string) : list string :=
  matchAllFrom m O None s.

(** The character class of the link pattern: every character but white
    space, the angle brackets, the double quote, the braces, the bar,
    the backslash, the caret, the backquote and the square brackets. *)
Definition isUrlChar (c : ascii) : bool :=
  negb (isSpace c
        || existsb (N.eqb (N_of_ascii c))
             [60; 62; 34; 123; 125; 124; 92; 94; 96; 91; 93]%N).

(** The part of the link pattern after [https?]: a colon, two
    slashes, then one or more characters of the class. *)
Definition matchUrlTail (s : string) : option nat :=
  if prefix "://" s
  then
    let n := span isUrlChar (dropChars 3 s) in
    if (1 <=? n)%nat then Some (3 + n)%nat else None
  else None.

(** The link pattern of [detectUrls]: after [http] the optional [s] is
    tried first, then left out. *)
Definition matchUrl : matcher :=
  fun _ s =>
    if prefix "http" s
    then
      let rest := dropChars 4 s in
      let withS :=
        if prefix "s" rest
        then
          match matchUrlTail (dropChars 1 rest) with
          | Some n => Some (5 + n)%nat
          | None => None
          end
        else None in
      match withS with
      | Some n => Some n
      | None =>
          match matchUrlTail rest with
          | Some n => Some (4 + n)%nat
          | None => None
          end
      end
    else None.

Definition detectUrls (text : string) : list string :=
  matchAll matchUrl text.

(** ** router.ts: [findRoute] *)

(** The two fields of a project that [findRoute] reads. *)
Module Project.
Record t : Type := mk
  { slug : string;
    title : string }.
End Project.

Definition projects : list Project.t :=
  [ {| Project.slug := "interlock"; Project.title := "Interlock" |};
    {| Project.slug := "altshift"; Project.title := "AltShift" |};
    {| Project.slug := "xdevverse"; Project.title := "XDevVerse" |};
    {| Project.slug := "nexus-ems";
       Project.title := "Employee Management System (EMS)" |};
    {| Project.slug := "typorush"; Project.title := "TypoRush" |} ].

(** The entries of [ROUTE_MAP], in the order of the object literal,
    which is the order of [Object.entries]. *)
Definition ROUTE_MAP : list (string * string) :=
  [ ("about", "/about");
    ("contact", "/about#contact");
    ("resume", "/about#resume");
    ("projects", "/projects");
    ("work", "/projects");
    ("interlock", "/projects/interlock");
    ("altshift", "/projects/altshift");
    ("xdevverse", "/projects/xdevverse");
    ("nexus", "/projects/nexus-ems");
    ("ems", "/projects/nexus-ems");
    ("typo", "/projects/typorush");
    ("typorush", "/projects/typorush") ].

(** A [RouteAction]; its [type] is always "NAVIGATE".  The label is
    kept as code units, because it is built with [toUpperCase]. *)
Module RouteAction.
Record t : Type := mk
  { path : string;
    label : list N }.
End RouteAction.

(** [key.charAt(0).toUpperCase() + key.slice(1)] *)
Definition capitalize (key : string) : list N :=
  match key with
  | EmptyString => []
  | String c rest => (upperUnits c ++ units rest)%list
  end.

(** The first loop of [findRoute], over the projects. *)
Fixpoint findProject (lowerText : string) (ps : list Project.t)
    : option RouteAction.t :=
  match ps with
  | [] => None
  | project :: ps' =>
      if includes lowerText (toLowerCase (Project.title project))
         || includes lowerText (Project.slug project)
      then
        Some {| RouteAction.path := "/projects/" ++ Project.slug project;
                RouteAction.label :=
                  units ("View " ++ Project.title project) |}
      else findProject lowerText ps'
  end.

(** The second loop of [findRoute], over the entries of the map. *)
Fixpoint findKey (lowerText : string) (entries : list (string * string))
    : option RouteAction.t :=
  match entries with
  | [] => None
  | (key, path) :: entries' =>
      if includes lowerText key
      then
        Some {| RouteAction.path := path;
                RouteAction.label := (units "Go to " ++ capitalize key)%list |}
      else findKey lowerText entries'
  end.

Definition findRoute (text : string) : option RouteAction.t :=
  let lowerText := toLowerCase text in
  match findProject lowerText projects with
  | Some action => Some action
  | None => findKey lowerText ROUTE_MAP
  end.

(** ** useSpriteAnimation.ts: [isAnimatedSprite], [createSpriteConfig] *)

Definition animatedExtensions : list string := [".gif"; ".webp"; ".apng"].

Definition isAnimatedSprite (src : string) : bool :=
  let lowerSrc := toLowerCase src in
  existsb (fun ext => endsWith lowerSrc ext) animatedExtensions.

Module SpriteConfig.
Record t : Type := mk
  { src : string;
    isAnimated : bool }.
End SpriteConfig.

Definition createSpriteConfig (src : string) : SpriteConfig.t :=
  {| SpriteConfig.src := src;
     SpriteConfig.isAnimated := isAnimatedSprite src |}.

(** ** Vocabulary of the further statements *)

(** [w] occurs in [s] as a contiguous substring. *)
Definition occursIn (w s : string) : Prop :=
  exists pre post : string, s = pre ++ w ++ post.

(** The shape of a file-name extension: a dot, then one or more
    characters other than a dot. *)
Definition isExtension (e : string) : bool :=
  match e with
  | String c x =>
      Ascii.eqb c "." && (1 <=? String.length x)%nat
      && (span notDot x =? String.length x)%nat
  | EmptyString => false
  end.

(** The bytes that a list of files adds up to. *)
Definition totalSize (files : list File.t) : N :=
  fold_right (fun f sum => (File.size f + sum)%N) 0%N files.

Definition totalExisting (existingFiles : list FileAttachment.t) : N :=
  fold_right (fun f sum => (FileAttachment.size f + sum)%N) 0%N existingFiles.

(** A file passes the three checks of the loop when [total] bytes are
    already taken. *)
Definition passes (total : N) (file : File.t) : bool :=
  match getFileType file with
  | None => false
  | Some _ =>
      negb (MAX_FILE_SIZE <? File.size file)%N
      && negb (MAX_TOTAL_SIZE <? total + File.size file)%N
  end.

(** The files that are accepted, in order, when [total] bytes are
    already taken. *)
Fixpoint accepted (total : N) (files : list File.t) : list File.t :=
  match files with
  | [] => []
  | f :: rest =>
      if passes total f
      then f :: accepted (total + File.size f) rest
      else accepted total rest
  end.

(** [sub] is [l] with some elements left out. *)
Inductive Subsequence {A : Type} : list A -> list A -> Prop :=
  | Subsequence_nil : Subsequence [] []
  | Subsequence_keep (x : A) (sub l : list A) :
      Subsequence sub l -> Subsequence (x :: sub) (x :: l)
  | Subsequence_drop (x : A) (sub l : list A) :
      Subsequence sub l -> Subsequence sub (x :: l).

(** Every character of [s] satisfies [p]. *)
Fixpoint forallChars (p : ascii -> bool) (s : string) : bool :=
  match s with
  | EmptyString => true
  | String c s' => p c && forallChars p s'
  end.

(** [[a-z0-9_]] *)
Definition isKeywordChar (c : ascii) : bool :=
  inRange 97 122 c || inRange 48 57 c || (N_of_ascii c =? 95)%N.

(** [s] has a character that is not white space. *)
Fixpoint hasInk (s : string) : bool :=
  match s with
  | EmptyString => false
  | String c s' => negb (isSpace c) || hasInk s'
  end.

(** [s] without its white space. *)
Fixpoint ink (s : string) : string :=
  match s with
  | EmptyString => EmptyString
  | String c s' => if isSpace c then ink s' else String c (ink s')
  end.


(** A separator that covers white space only. *)
Definition blankSeparator (sep : separator) : Prop :=
  forall s n, sep s = Some (S n) -> ink (dropChars (S n) s) = ink s.


(** The number of query keywords, repetitions counted, that are among
    the keywords of a document. *)
Definition overlap (query : string) (doc : EvidenceDoc.t) : nat :=
  List.length
    (filter (fun kw => arrayIncludes (EvidenceDoc.keywords doc) kw)
       (extractKeywords query)).

(** The object that [searchEvidence] builds for a document. *)
Definition scoreOf (query : string) (doc : EvidenceDoc.t) : Scored.t :=
  {| Scored.doc := doc; Scored.score := overlap query doc |}.

(** The text that [searchEvidence] returns for a list of documents. *)
Definition renderEvidence (docs : list EvidenceDoc.t) : list N :=
  join blockSeparator (map evidenceBlock docs).

(** The ranking of the documents themselves: the stable sort by
    decreasing overlap. *)
Fixpoint insertByOverlap (query : string) (x : EvidenceDoc.t)
    (ranked : list EvidenceDoc.t) : list EvidenceDoc.t :=
  match ranked with
  | [] => [x]
  | y :: ranked' =>
      if (overlap query y <=? overlap query x)%nat
      then x :: ranked
      else y :: insertByOverlap query x ranked'
  end.

Fixpoint rankDocs (query : string) (docs : list EvidenceDoc.t)
    : list EvidenceDoc.t :=
  match docs with
  | [] => []
  | x :: docs' => insertByOverlap query x (rankDocs query docs')
  end.

(** [docs] is in order of decreasing overlap with the query. *)
Definition byOverlap (query : string) (docs : list EvidenceDoc.t) : Prop :=
  StronglySorted (fun a b => (overlap query b <= overlap query a)%nat) docs.

Definition hasOverlap (query : string) (doc : EvidenceDoc.t) : bool :=
  (0 <? overlap query doc)%nat.

(** The shape of a detected link: one of the two schemes with its colon
    and slashes, then one or more characters of the class. *)
Definition isLink (u : string) : Prop :=
  exists scheme body,
    u = scheme ++ body
    /\ (scheme = "http://" \/ scheme = "https://")
    /\ body <> ""
    /\ forallChars isUrlChar body = true.

(** Two documents for the examples. *)
Definition skillsAndBio : list EvidenceDoc.t :=
  [ {| EvidenceDoc.type := "skills"; EvidenceDoc.content := "react, rust";
       EvidenceDoc.keywords := ["react"; "rust"] |};
    {| EvidenceDoc.type := "bio"; EvidenceDoc.content := "likes react";
       EvidenceDoc.keywords := ["likes"; "react"] |} ].

(** A project is mentioned in a lower-cased text. *)
Definition mentions (lowerText : string) (project : Project.t) : bool :=
  includes lowerText (toLowerCase (Project.title project))
  || includes lowerText (Project.slug project).

Definition projectAction (project : Project.t) : RouteAction.t :=
  {| RouteAction.path := "/projects/" ++ Project.slug project;
     RouteAction.label := units ("View " ++ Project.title project) |}.

Definition keyAction (entry : string * string) : RouteAction.t :=
  {| RouteAction.path := snd entry;
     RouteAction.label := (units "Go to " ++ capitalize (fst entry))%list |}.

(** [c] with a capital A-Z replaced by its small letter; every other
    character is left as it is. *)
Definition asciiLowerChar (c : ascii) : ascii :=
  if isUpperAZ c then ascii_of_N (N_of_ascii c + 32) else c.

Fixpoint asciiLower (s : string) : string :=
  match s with
  | EmptyString => EmptyString
  | String c s' => String (asciiLowerChar c) (asciiLower s')
  end.

(** * Properties *)

(** ** Rounding *)

Lemma Math_round_nearest (x : Q) : nearestInteger x (Math_round x).
Proof.
  unfold nearestInteger, Math_round.
  pose proof (Qfloor_le (x + (1 # 2))) as Hlo.
  pose proof (Qlt_floor (x + (1 # 2))) as Hhi.
  rewrite inject_Z_plus in Hhi.
  split.
  - apply Qplus_le_l with (z := 1 # 2).
    ring_simplify. ring_simplify in Hlo. exact Hlo.
  - apply Qplus_lt_l with (z := 1 # 2).
    setoid_replace (inject_Z (Qfloor (x + (1 # 2))) + (1 # 2) + (1 # 2))%Q
      with (inject_Z (Qfloor (x + (1 # 2))) + inject_Z 1)%Q by ring.
    exact Hhi.
Qed.

Lemma nearestInteger_unique (x : Q) (r r' : Z) :
  nearestInteger x r -> nearestInteger x r' -> r = r'.
Proof.
  intros [Hlo Hhi] [Hlo' Hhi'].
  assert (H1 : (inject_Z r - (1 # 2) < inject_Z r' + (1 # 2))%Q)
    by (eapply Qle_lt_trans; eassumption).
  assert (H2 : (inject_Z r' - (1 # 2) < inject_Z r + (1 # 2))%Q)
    by (eapply Qle_lt_trans; eassumption).
  unfold Qlt, Qminus, Qplus, Qopp, inject_Z in H1, H2. simpl in H1, H2.
  lia.
Qed.

Lemma Math_round_integer (z : Z) : Math_round (inject_Z z) = z.
Proof.
  symmetry. apply (nearestInteger_unique (inject_Z z)).
  - unfold nearestInteger, Qle, Qlt, Qminus, Qplus, Qopp, inject_Z. simpl.
    lia.
  - apply Math_round_nearest.
Qed.

Lemma Math_round_comp (x y : Q) : (x == y)%Q -> Math_round x = Math_round y.
Proof.
  intros Hxy. unfold Math_round. apply Qfloor_comp. rewrite Hxy. reflexivity.
Qed.

(** ** The history loop *)

Lemma historyStep_at (pre suf : list HistoryEntry) (m : HistoryEntry)
    (acc : Q) :
  (historyStep (pre ++ m :: suf) acc (List.length pre)
   == acc + inject_Z (analyzeTextScore (content m))
            * loopWeight (List.length pre))%Q.
Proof.
  unfold historyStep, loopWeight.
  rewrite nth_error_app2 by lia.
  rewrite Nat.sub_diag. simpl nth_error. cbv zeta.
  set (len := Z.of_nat (List.length (pre ++ m :: suf))).
  replace (len - 1 - (len - 1 - Z.of_nat (List.length pre)))
    with (Z.of_nat (List.length pre)) by lia.
  reflexivity.
Qed.

Lemma historyLoop_from (suf pre : list HistoryEntry) (acc : Q) :
  (fold_left (historyStep (pre ++ suf))
     (seq (List.length pre) (List.length suf)) acc
   == acc + weightedSum loopWeight (List.length pre) suf)%Q.
Proof.
  revert pre acc. induction suf as [| m suf IH]; intros pre acc.
  - simpl. ring.
  - cbn [List.length seq fold_left weightedSum].
    specialize (IH (pre ++ [m])%list (historyStep (pre ++ m :: suf)%list acc (List.length pre))).
    rewrite <- app_assoc in IH. cbn [app] in IH.
    rewrite length_app in IH. cbn [List.length] in IH.
    rewrite Nat.add_1_r in IH.
    rewrite IH, historyStep_at. ring.
Qed.

Lemma historyLoop_weights (turns : list HistoryEntry) :
  (historyLoop turns 0 == weightedSum loopWeight 0 turns)%Q.
Proof.
  unfold historyLoop.
  rewrite (historyLoop_from turns [] 0%Q). cbn [List.length].
  apply Qplus_0_l.
Qed.

Lemma historyScore_retained (history : option (list HistoryEntry)) :
  historyScore history = historyLoop (retainedTurns history) 0.
Proof.
  destruct history as [[| m h] |]; reflexivity.
Qed.

Lemma totalScore_weights (text : string)
    (history : option (list HistoryEntry)) :
  (totalScore text history
   == weightedSum loopWeight 0 (retainedTurns history)
      + inject_Z (analyzeTextScore text))%Q.
Proof.
  unfold totalScore.
  rewrite historyScore_retained, historyLoop_weights. reflexivity.
Qed.

(** ** The decay weights *)

Example weights_three_turns :
  map loopWeight [0%nat; 1%nat; 2%nat] = [1; 6 # 10; 36 # 100]%Q
  /\ map (specWeight 3) [0%nat; 1%nat; 2%nat] = [36 # 100; 6 # 10; 1]%Q.
Proof. split; reflexivity. Qed.

(** The loop hands out the weights of the design document in reverse
    order of the turns. *)
Lemma loopWeight_reverses_specWeight (N i : nat) :
  (i < N)%nat -> specWeight N (N - 1 - i) = loopWeight i.
Proof.
  intros Hi. unfold specWeight, loopWeight. f_equal. lia.
Qed.

(** C1 (the code departs from the claim).  The claim gives turn [i] of
    [N] retained turns the weight [0.6^(N-1-i)], the newest turn weighing
    1.  The loop of the source gives turn [i] the weight [0.6^i]: the
    oldest turn weighs 1 and every newer turn 0.6 times the one before
    it.  For the history "bad", "ok" (two user turns) and an empty
    current text the source returns score 15 where the claimed rule
    gives 9; with "stupid liar", "ok" the source returns 30 and mood
    NEUTRAL where the claimed rule gives 18 and mood POSITIVE. *)
Theorem analyzeSentiment_decay_reversed :
  (forall text history,
      (totalScore text history
       == weightedSum loopWeight 0 (retainedTurns history)
          + inject_Z (analyzeTextScore text))%Q)
  /\ (loopWeight 0 == 1)%Q
  /\ (forall i, (loopWeight (S i) == decayFactor * loopWeight i)%Q)
  /\ score (analyzeSentiment "" (Some [user "bad"; user "ok"])) = 15
  /\ specScore "" (Some [user "bad"; user "ok"]) = 9
  /\ analyzeSentiment "" (Some [user "stupid liar"; user "ok"])
     = {| mood := NEUTRAL; score := 30; strategy := ASSERTIVE |}
  /\ specScore "" (Some [user "stupid liar"; user "ok"]) = 18
  /\ getMoodFromScore 18 = POSITIVE.
Proof.
  split; [exact totalScore_weights |].
  split; [reflexivity |].
  split.
  - intros i. unfold loopWeight.
    rewrite Nat2Z.inj_succ, <- Z.add_1_l.
    rewrite Qpower_plus by (unfold decayFactor; discriminate).
    reflexivity.
  - repeat split; vm_compute; reflexivity.
Qed.

(** ** The clamp *)

(** C2.  For every text and every history, absent or present, the score
    that [analyzeSentiment] returns lies between 0 and 100. *)
Theorem analyzeSentiment_score_bounds (text : string)
    (history : option (list HistoryEntry)) :
  0 <= score (analyzeSentiment text history) <= 100.
Proof.
  unfold analyzeSentiment. cbn [score].
  generalize (Math_round (totalScore text history)). intros r. lia.
Qed.

Lemma historyStep64_at (Math_pow : Q -> Z -> Q) (mul64 add64 : Q -> Q -> Q)
    (pre suf : list HistoryEntry) (m : HistoryEntry) (acc : Q) :
  Binary64.historyStep Math_pow mul64 add64 (pre ++ m :: suf) acc
    (List.length pre)
  = add64 acc
      (mul64 (inject_Z (analyzeTextScore (content m)))
         (Math_pow decayFactor (Z.of_nat (List.length pre)))).
Proof.
  unfold Binary64.historyStep.
  rewrite nth_error_app2 by lia.
  rewrite Nat.sub_diag. simpl nth_error. cbv zeta.
  set (len := Z.of_nat (List.length (pre ++ m :: suf))).
  replace (len - 1 - (len - 1 - Z.of_nat (List.length pre)))
    with (Z.of_nat (List.length pre)) by lia.
  reflexivity.
Qed.

Lemma historyLoop64_from (Math_pow : Q -> Z -> Q) (mul64 add64 : Q -> Q -> Q)
    (suf pre : list HistoryEntry) (acc : Q) :
  fold_left (Binary64.historyStep Math_pow mul64 add64 (pre ++ suf))
    (seq (List.length pre) (List.length suf)) acc
  = Binary64.weightedFrom Math_pow mul64 add64 (List.length pre) acc suf.
Proof.
  revert pre acc. induction suf as [| m suf IH]; intros pre acc.
  - reflexivity.
  - cbn [List.length seq fold_left Binary64.weightedFrom].
    rewrite historyStep64_at.
    specialize (IH (pre ++ [m])%list
                  (add64 acc
                     (mul64 (inject_Z (analyzeTextScore (content m)))
                        (Math_pow decayFactor
                           (Z.of_nat (List.length pre)))))).
    rewrite <- app_assoc in IH. cbn [app] in IH.
    rewrite length_app in IH. cbn [List.length] in IH.
    rewrite Nat.add_1_r in IH. exact IH.
Qed.

Lemma historyScore64_retained (Math_pow : Q -> Z -> Q)
    (mul64 add64 : Q -> Q -> Q) (history : option (list HistoryEntry)) :
  Binary64.historyScore Math_pow mul64 add64 history
  = Binary64.weightedFrom Math_pow mul64 add64 0 0 (retainedTurns history).
Proof.
  destruct history as [[| m h] |]; try reflexivity.
  unfold Binary64.historyScore, retainedTurns.
  change (0 <? List.length (m :: h))%nat with true. cbv iota zeta.
  unfold Binary64.historyLoop.
  exact (historyLoop64_from Math_pow mul64 add64
           (filter isUser (m :: h)) [] 0%Q).
Qed.

(** With exact rational arithmetic for the three operations the
    definitions of the module are the definitions given first. *)
Lemma analyzeSentiment_exact_arithmetic (text : string)
    (history : option (list HistoryEntry)) :
  Binary64.analyzeSentiment Qpower Qmult Qplus text history
  = analyzeSentiment text history.
Proof. reflexivity. Qed.

(** C7.  The final score is the total, first rounded to its nearest
    integer (a tie going up) and then clamped.  Whatever the roundings
    of the double arithmetic that builds the total are: with [total]
    the value of [totalScore] at line 616, that is the weighted history
    sum with the raw score of the current text added, and with [r] the
    nearest integer of [total], the result is the one of the score
    [max 0 (min r 100)]. *)
Theorem analyzeSentiment_round_then_clamp
    (Math_pow : Q -> Z -> Q) (mul64 add64 : Q -> Q -> Q)
    (text : string) (history : option (list HistoryEntry)) :
  exists (total : Q) (r : Z),
    total
    = add64
        (Binary64.weightedFrom Math_pow mul64 add64 0 0
           (retainedTurns history))
        (inject_Z (analyzeTextScore text))
    /\ nearestInteger total r
    /\ (forall r', nearestInteger total r' -> r' = r)
    /\ Binary64.analyzeSentiment Math_pow mul64 add64 text history
       = resultOfScore (Z.max 0 (Z.min r 100)).
Proof.
  exists (Binary64.totalScore Math_pow mul64 add64 text history),
    (Math_round (Binary64.totalScore Math_pow mul64 add64 text history)).
  split; [| split; [| split]].
  - unfold Binary64.totalScore. now rewrite historyScore64_retained.
  - apply Math_round_nearest.
  - intros r' Hr'.
    exact (nearestInteger_unique _ _ _ Hr' (Math_round_nearest _)).
  - reflexivity.
Qed.

(** Clamping first and rounding afterwards would give the same integer:
    the two orders cannot be told apart from the outside. *)
Lemma clamp_then_round_agrees (x : Q) :
  Math_round (Qmax 0 (Qmin x 100)) = Z.max 0 (Z.min (Math_round x) 100).
Proof.
  assert (Hmono : forall a b, (a <= b)%Q -> Math_round a <= Math_round b).
  { intros a b Hab. unfold Math_round. apply Qfloor_resp_le.
    apply Qplus_le_l. exact Hab. }
  destruct (Qlt_le_dec x 0) as [Hneg | Hpos].
  - rewrite (Math_round_comp _ 0).
    + pose proof (Hmono x 0%Q (Qlt_le_weak _ _ Hneg)) as H.
      change (Math_round 0) with 0 in *. lia.
    + rewrite Q.max_l; [reflexivity |].
      apply Qle_trans with x; [apply Q.le_min_l | apply Qlt_le_weak; exact Hneg].
  - destruct (Qlt_le_dec 100 x) as [Hbig | Hsmall].
    + rewrite (Math_round_comp _ 100).
      * pose proof (Hmono 100%Q x (Qlt_le_weak _ _ Hbig)) as H.
        change (Math_round 100) with 100 in *. lia.
      * rewrite Q.min_r by (apply Qlt_le_weak; exact Hbig).
        apply Q.max_r. discriminate.
    + rewrite (Math_round_comp _ x).
      * pose proof (Hmono 0%Q x Hpos) as H0.
        pose proof (Hmono x 100%Q Hsmall) as H1.
        change (Math_round 0) with 0 in *.
        change (Math_round 100) with 100 in *. lia.
      * rewrite Q.min_l by exact Hsmall. apply Q.max_r. exact Hpos.
Qed.

(** ** The history filter *)

(** C5.  Two histories with the same user-authored entries, in the same
    order, give the same result for every text, whatever their
    assistant-authored entries are. *)
Theorem analyzeSentiment_ignores_assistant (text : string)
    (h1 h2 : option (list HistoryEntry)) :
  retainedTurns h1 = retainedTurns h2 ->
  analyzeSentiment text h1 = analyzeSentiment text h2.
Proof.
  intros Heq. unfold analyzeSentiment, totalScore.
  rewrite !historyScore_retained, Heq. reflexivity.
Qed.

Lemma analyzeSentiment_ignores_assistant_witness :
  retainedTurns
    (Some [user "bad"; assistant "terrible, awful GARBAGE!!"; user "ok"])
  = retainedTurns (Some [assistant "thanks"; user "bad"; user "ok"])
  /\ analyzeSentiment "wrong"
       (Some [user "bad"; assistant "terrible, awful GARBAGE!!"; user "ok"])
     = analyzeSentiment "wrong"
         (Some [assistant "thanks"; user "bad"; user "ok"]).
Proof.
  split.
  - reflexivity.
  - apply (analyzeSentiment_ignores_assistant "wrong"). reflexivity.
Defined.

(** ** No history *)

Lemma analyzeSentiment_of_total (text : string)
    (history : option (list HistoryEntry)) (z : Z) :
  (totalScore text history == inject_Z z)%Q ->
  analyzeSentiment text history = resultOfScore (clamp100 z).
Proof.
  intros Hz. unfold analyzeSentiment, resultOfScore, clamp100.
  rewrite (Math_round_comp _ _ Hz), Math_round_integer. reflexivity.
Qed.

(** C6.  With an absent or an empty history the result is the one of the
    current text's own raw score, clamped to [0, 100] (the raw score is
    an integer, rounding leaves it as it is); the empty text without
    history gives score 0, mood POSITIVE, strategy AGGRESSIVE. *)
Theorem analyzeSentiment_no_history (text : string) :
  analyzeSentiment text None
  = resultOfScore (clamp100 (analyzeTextScore text))
  /\ analyzeSentiment text (Some [])
     = resultOfScore (clamp100 (analyzeTextScore text))
  /\ analyzeSentiment "" None
     = {| mood := POSITIVE; score := 0; strategy := AGGRESSIVE |}
  /\ analyzeSentiment "" (Some [])
     = {| mood := POSITIVE; score := 0; strategy := AGGRESSIVE |}.
Proof.
  assert (Hnone : analyzeSentiment text None
                  = resultOfScore (clamp100 (analyzeTextScore text))).
  { apply analyzeSentiment_of_total. unfold totalScore. simpl historyScore.
    apply Qplus_0_l. }
  assert (Hnil : analyzeSentiment text (Some [])
                 = resultOfScore (clamp100 (analyzeTextScore text))).
  { apply analyzeSentiment_of_total. unfold totalScore. simpl historyScore.
    apply Qplus_0_l. }
  split; [exact Hnone |].
  split; [exact Hnil |].
  split; vm_compute; reflexivity.
Qed.

(** ** The mood classifier *)

Ltac mood_cases s :=
  unfold getMoodFromScore;
  destruct (Z.leb_spec 70 s); [| destruct (Z.leb_spec 40 s);
                                 [| destruct (Z.leb_spec 20 s)]].

(** C3.  On the scores 0..100 the classifier returns HOSTILE exactly
    from 70 up, SKEPTICAL exactly on 40..69, NEUTRAL exactly on 20..39
    and POSITIVE exactly below 20; the score 20 is NEUTRAL. *)
Theorem getMoodFromScore_bands (s : Z) :
  0 <= s <= 100 ->
  (getMoodFromScore s = HOSTILE <-> 70 <= s)
  /\ (getMoodFromScore s = SKEPTICAL <-> 40 <= s < 70)
  /\ (getMoodFromScore s = NEUTRAL <-> 20 <= s < 40)
  /\ (getMoodFromScore s = POSITIVE <-> s < 20)
  /\ getMoodFromScore 20 = NEUTRAL.
Proof.
  intros Hs.
  repeat match goal with |- _ /\ _ => split end;
    try reflexivity;
    mood_cases s; split; intros H'; solve [lia | discriminate | reflexivity].
Qed.

Lemma getMoodFromScore_bands_witness :
  0 <= 20 <= 100
  /\ (getMoodFromScore 20 = HOSTILE <-> 70 <= 20)
  /\ (getMoodFromScore 20 = SKEPTICAL <-> 40 <= 20 < 70)
  /\ (getMoodFromScore 20 = NEUTRAL <-> 20 <= 20 < 40)
  /\ (getMoodFromScore 20 = POSITIVE <-> 20 < 20)
  /\ getMoodFromScore 20 = NEUTRAL.
Proof.
  split; [lia | apply (getMoodFromScore_bands 20); lia].
Defined.

(** ** The strategy selector *)

(** C4.  The selector sends POSITIVE to AGGRESSIVE, NEUTRAL to
    ASSERTIVE, SKEPTICAL to DIPLOMATIC and HOSTILE to YIELDING, and it
    is a bijection between the four moods and the four strategies: it
    has a two-sided inverse. *)
Theorem getStrategyFromMood_bijection :
  getStrategyFromMood POSITIVE = AGGRESSIVE
  /\ getStrategyFromMood NEUTRAL = ASSERTIVE
  /\ getStrategyFromMood SKEPTICAL = DIPLOMATIC
  /\ getStrategyFromMood HOSTILE = YIELDING
  /\ (forall m, moodOfStrategy (getStrategyFromMood m) = m)
  /\ (forall st, getStrategyFromMood (moodOfStrategy st) = st).
Proof.
  repeat match goal with |- _ /\ _ => split end; try reflexivity.
  - intros []; reflexivity.
  - intros []; reflexivity.
Qed.

(** C8.  For every score in 0..100 exactly one band of the table
    applies, and it is the one the classifier returns; for every mood the
    [switch] of the selector stops at a named [case], so that its
    [default] branch is not taken. *)
Theorem classifier_selector_total (s : Z) (m : Mood) :
  0 <= s <= 100 ->
  inBand (getMoodFromScore s) s
  /\ (forall m', inBand m' s -> m' = getMoodFromScore s)
  /\ switchCase (moodTag m) strategyCases = Some (getStrategyFromMood m).
Proof.
  intros Hs. split; [| split].
  - mood_cases s; simpl; lia.
  - intros m' Hm'. mood_cases s; destruct m'; simpl in Hm';
      solve [reflexivity | lia].
  - destruct m; reflexivity.
Qed.

Lemma classifier_selector_total_witness :
  0 <= 55 <= 100
  /\ inBand (getMoodFromScore 55) 55
  /\ (forall m', inBand m' 55 -> m' = getMoodFromScore 55)
  /\ switchCase (moodTag SKEPTICAL) strategyCases
     = Some (getStrategyFromMood SKEPTICAL).
Proof.
  split; [lia | apply (classifier_selector_total 55 SKEPTICAL); lia].
Defined.

(** A string that names no mood does reach [default]. *)
Example switch_default_taken :
  switchCase "THINKING" strategyCases = None
  /\ switchStrategy "THINKING" = ASSERTIVE.
Proof. split; reflexivity. Qed.

(** ** The text score *)

Lemma lexiconLoop_count (lower : string) (delta : Z) (lexicon : list string)
    (acc : Z) :
  lexiconLoop lower delta lexicon acc
  = acc + delta * presentCount lower lexicon.
Proof.
  unfold lexiconLoop, presentCount, entriesPresent.
  revert acc. induction lexicon as [| word lexicon IH]; intros acc.
  - simpl. lia.
  - cbn [fold_left filter]. rewrite IH.
    destruct (includes lower word); cbn [List.length]; lia.
Qed.

Lemma analyzeTextScore_decomposition (text : string) :
  analyzeTextScore text
  = 15 * presentCount (toLowerCase text) ANGER_WORDS
    + 10 * presentCount (toLowerCase text) SKEPTICAL_PHRASES
    - 8 * presentCount (toLowerCase text) POSITIVE_WORDS
    + 12 * Z.of_nat (matchCount matchCaps text)
    + 8 * Z.of_nat (matchCount (matchRun2 "!") text
                    + matchCount (matchRun2 "?") text).
Proof.
  unfold analyzeTextScore. cbv zeta.
  rewrite !lexiconLoop_count. lia.
Qed.

(** C9.  "This is terrible and stupid!!" contains the anger words
    "stupid" and "terrible" and no other lexicon entry, no all-caps
    word and one run of exclamation marks: its raw score is
    15 + 15 + 8 = 38, and without history the result is score 38, mood
    NEUTRAL, strategy ASSERTIVE. *)
Theorem analyzeSentiment_terrible_stupid :
  let text := "This is terrible and stupid!!" in
  entriesPresent (toLowerCase text) ANGER_WORDS = ["stupid"; "terrible"]
  /\ entriesPresent (toLowerCase text) SKEPTICAL_PHRASES = []
  /\ entriesPresent (toLowerCase text) POSITIVE_WORDS = []
  /\ matchCount matchCaps text = 0%nat
  /\ matchCount (matchRun2 "!") text = 1%nat
  /\ matchCount (matchRun2 "?") text = 0%nat
  /\ analyzeTextScore text = 38
  /\ 20 <= 38 < 40
  /\ analyzeSentiment text None
     = {| mood := NEUTRAL; score := 38; strategy := ASSERTIVE |}
  /\ analyzeSentiment text (Some [])
     = {| mood := NEUTRAL; score := 38; strategy := ASSERTIVE |}.
Proof.
  cbv zeta.
  repeat match goal with |- _ /\ _ => split end;
    solve [vm_compute; reflexivity | lia].
Qed.

(** ** Repeated text *)

Lemma toLowerCase_app (a b : string) :
  toLowerCase (a ++ b) = toLowerCase a ++ toLowerCase b.
Proof.
  induction a as [| c a IH]; simpl; [reflexivity | now rewrite IH].
Qed.

Lemma toLowerCase_repeatText (unit : string) (n : nat) :
  toLowerCase (repeatText unit n) = repeatText (toLowerCase unit) n.
Proof.
  induction n as [| n IH]; simpl; [reflexivity |].
  now rewrite toLowerCase_app, IH.
Qed.

Lemma allIn_app (alphabet a b : string) :
  allIn alphabet a = true -> allIn alphabet b = true ->
  allIn alphabet (a ++ b) = true.
Proof.
  intros Ha Hb. induction a as [| c a IH]; simpl in *; [exact Hb |].
  apply andb_true_iff in Ha as [Hc Ha]. rewrite Hc. simpl. auto.
Qed.

Lemma allIn_repeatText (alphabet unit : string) (n : nat) :
  allIn alphabet unit = true -> allIn alphabet (repeatText unit n) = true.
Proof.
  intros Hu. induction n as [| n IH]; simpl; [reflexivity |].
  now apply allIn_app.
Qed.

Lemma prefix_allIn (alphabet w s : string) :
  prefix w s = true -> allIn alphabet s = true -> allIn alphabet w = true.
Proof.
  revert s. induction w as [| c w IH]; intros s Hp Hs; [reflexivity |].
  destruct s as [| d s]; simpl in Hp; [discriminate |].
  destruct (ascii_dec c d) as [-> | Hne]; [| discriminate].
  simpl in *. apply andb_true_iff in Hs as [Hd Hs].
  rewrite Hd. simpl. eauto.
Qed.

Lemma includes_allIn (alphabet s w : string) :
  includes s w = true -> allIn alphabet s = true -> allIn alphabet w = true.
Proof.
  induction s as [| d s IH]; intros Hi Hs; cbn [includes] in Hi.
  - apply orb_true_iff in Hi as [Hp | Hf]; [| discriminate].
    exact (prefix_allIn alphabet w "" Hp Hs).
  - apply orb_true_iff in Hi as [Hp | Hi].
    + exact (prefix_allIn alphabet w (String d s) Hp Hs).
    + simpl in Hs. apply andb_true_iff in Hs as [_ Hs]. auto.
Qed.

(** Only the entries written in the alphabet of a text can occur in it. *)
Lemma entriesPresent_alphabet (alphabet lower : string)
    (lexicon : list string) :
  allIn alphabet lower = true ->
  entriesPresent lower lexicon
  = entriesPresent lower (filter (allIn alphabet) lexicon).
Proof.
  intros Hs. unfold entriesPresent.
  induction lexicon as [| w lexicon IH]; [reflexivity |].
  cbn [filter]. destruct (allIn alphabet w) eqn:Hw.
  - cbn [filter]. now rewrite IH.
  - destruct (includes lower w) eqn:Hi; [| exact IH].
    rewrite (includes_allIn alphabet lower w Hi Hs) in Hw. discriminate.
Qed.

Lemma matchCountFrom_repeatText (m : matcher) (unit : string) (k : nat) :
  (forall prev, atUnitStart prev -> m prev "" = None) ->
  (forall prev rest, atUnitStart prev ->
     matchCountFrom m 0 prev (unit ++ rest)
     = (k + matchCountFrom m 0 (Some " "%char) rest)%nat) ->
  forall n prev, atUnitStart prev ->
    matchCountFrom m 0 prev (repeatText unit n) = (k * n)%nat.
Proof.
  intros Hend Hunit n. induction n as [| n IH]; intros prev Hprev.
  - simpl. rewrite (Hend prev Hprev). lia.
  - cbn [repeatText]. rewrite (Hunit prev _ Hprev).
    rewrite IH by (right; reflexivity). lia.
Qed.

Ltac match_end := intros ? [-> | ->]; reflexivity.
Ltac match_unit := intros ? ? [-> | ->]; reflexivity.

Lemma matchCount_repeatText (m : matcher) (unit : string) (k n : nat) :
  (forall prev, atUnitStart prev -> m prev "" = None) ->
  (forall prev rest, atUnitStart prev ->
     matchCountFrom m 0 prev (unit ++ rest)
     = (k + matchCountFrom m 0 (Some " "%char) rest)%nat) ->
  matchCount m (repeatText unit n) = (k * n)%nat.
Proof.
  intros Hend Hunit. unfold matchCount.
  apply matchCountFrom_repeatText; [exact Hend | exact Hunit |].
  left; reflexivity.
Qed.

Ltac restrict_lexicon alphabet lexicon :=
  rewrite (entriesPresent_alphabet alphabet _ lexicon)
    by (apply allIn_repeatText; reflexivity);
  let l := eval vm_compute in (filter (allIn alphabet) lexicon) in
  change (filter (allIn alphabet) lexicon) with l.

Ltac lexicon_alphabet alphabet :=
  restrict_lexicon alphabet ANGER_WORDS;
  restrict_lexicon alphabet SKEPTICAL_PHRASES;
  restrict_lexicon alphabet POSITIVE_WORDS;
  unfold entriesPresent; cbn [filter].

Ltac count_matches unit caps bangs questions :=
  rewrite (matchCount_repeatText matchCaps unit caps),
    (matchCount_repeatText (matchRun2 "!") unit bangs),
    (matchCount_repeatText (matchRun2 "?") unit questions)
    by (match_end || match_unit).

Ltac repeated_unit unit lowered caps bangs questions :=
  rewrite analyzeTextScore_decomposition, toLowerCase_repeatText;
  change (toLowerCase unit) with lowered;
  unfold presentCount;
  lexicon_alphabet lowered;
  count_matches unit caps bangs questions.

Lemma analyzeTextScore_repeat_bad (n : nat) :
  analyzeTextScore (repeatText "bad " (S n)) = 15.
Proof.
  repeated_unit "bad " "bad " 0%nat 0%nat 0%nat.
  reflexivity.
Qed.

Lemma analyzeTextScore_repeat_bang (n : nat) :
  analyzeTextScore (repeatText "!! " n) = 8 * Z.of_nat n.
Proof.
  repeated_unit "!! " "!! " 0%nat 1%nat 0%nat.
  cbn [List.length]. lia.
Qed.

Lemma analyzeTextScore_repeat_question (n : nat) :
  analyzeTextScore (repeatText "?? " n) = 8 * Z.of_nat n.
Proof.
  repeated_unit "?? " "?? " 0%nat 0%nat 1%nat.
  cbn [List.length]. lia.
Qed.

Lemma analyzeTextScore_repeat_caps (n : nat) :
  analyzeTextScore (repeatText "ABC " n) = 12 * Z.of_nat n.
Proof.
  repeated_unit "ABC " "abc " 1%nat 0%nat 0%nat.
  cbn [List.length]. lia.
Qed.

(** C10.  The raw score of a text is 15 for each anger word that
    occurs in the lower-cased text, 10 for each skeptical phrase that
    occurs, -8 for each positive word that occurs (an entry counts once,
    however often it occurs), 12 for each match of the all-caps pattern
    and 8 for each match of the two punctuation patterns.  Any number of
    copies of "bad" scores 15; [n] copies of "!!", of "??" and of "ABC"
    score [8 n], [8 n] and [12 n]. *)
Theorem analyzeTextScore_once_per_entry :
  (forall text,
      analyzeTextScore text
      = 15 * presentCount (toLowerCase text) ANGER_WORDS
        + 10 * presentCount (toLowerCase text) SKEPTICAL_PHRASES
        - 8 * presentCount (toLowerCase text) POSITIVE_WORDS
        + 12 * Z.of_nat (matchCount matchCaps text)
        + 8 * Z.of_nat (matchCount (matchRun2 "!") text
                        + matchCount (matchRun2 "?") text))
  /\ analyzeTextScore "bad bad bad" = 15
  /\ (forall n, analyzeTextScore (repeatText "bad " (S n)) = 15)
  /\ (forall n, analyzeTextScore (repeatText "!! " n) = 8 * Z.of_nat n)
  /\ (forall n, analyzeTextScore (repeatText "?? " n) = 8 * Z.of_nat n)
  /\ (forall n, analyzeTextScore (repeatText "ABC " n) = 12 * Z.of_nat n).
Proof.
  split; [exact analyzeTextScore_decomposition |].
  split; [reflexivity |].
  split; [exact analyzeTextScore_repeat_bad |].
  split; [exact analyzeTextScore_repeat_bang |].
  split; [exact analyzeTextScore_repeat_question |].
  exact analyzeTextScore_repeat_caps.
Qed.

(** * Properties of the rest of the code *)

(** ** Strings *)

Lemma append_assoc (a b c : string) : (a ++ b) ++ c = a ++ b ++ c.
Proof.
  induction a as [| x a IH]; simpl; [reflexivity | now rewrite IH].
Qed.

Lemma append_nil_r (a : string) : a ++ "" = a.
Proof.
  induction a as [| x a IH]; simpl; [reflexivity | now rewrite IH].
Qed.

Lemma prefix_spec (w s : string) :
  prefix w s = true <-> exists post, s = w ++ post.
Proof.
  revert s. induction w as [| c w IH]; intros s.
  - split; [intros _; exists s; reflexivity | destruct s; reflexivity].
  - destruct s as [| d s]; simpl.
    + split; [discriminate | intros [post H]; discriminate].
    + destruct (ascii_dec c d) as [-> | Hne].
      * rewrite IH. split; intros [post H]; exists post.
        -- now rewrite H.
        -- now injection H.
      * split; [discriminate |].
        intros [post H]. injection H as H1 H2. congruence.
Qed.

Lemma includes_spec (s w : string) : includes s w = true <-> occursIn w s.
Proof.
  unfold occursIn. induction s as [| d s IH]; cbn [includes].
  - rewrite orb_false_r, prefix_spec. split.
    + intros [post H]. exists "", post. exact H.
    + intros [[| c pre] [post H]]; [exists post; exact H | discriminate].
  - rewrite orb_true_iff, prefix_spec, IH. split.
    + intros [[post H] | [pre [post H]]].
      * exists "", post. exact H.
      * exists (String d pre), post. simpl. now rewrite H.
    + intros [[| c pre] [post H]].
      * left. exists post. exact H.
      * right. injection H as _ H. exists pre, post. exact H.
Qed.

Lemma occursIn_context (w s pre post : string) :
  occursIn w s -> occursIn w (pre ++ s ++ post).
Proof.
  intros [a [b H]]. exists (pre ++ a), (b ++ post).
  rewrite H, !append_assoc. reflexivity.
Qed.

Lemma lowerChar_idempotent (c : ascii) : lowerChar (lowerChar c) = lowerChar c.
Proof.
  destruct c as [[] [] [] [] [] [] [] []]; reflexivity.
Qed.

Lemma toLowerCase_idempotent (s : string) :
  toLowerCase (toLowerCase s) = toLowerCase s.
Proof.
  induction s as [| c s IH]; simpl; [reflexivity |].
  now rewrite lowerChar_idempotent, IH.
Qed.

Lemma existsb_includes_spec (lower : string) (keywords : list string) :
  existsb (fun k => includes lower k) keywords = true
  <-> exists k, In k keywords /\ occursIn k lower.
Proof.
  rewrite existsb_exists. split; intros [k [Hin Hk]]; exists k; split;
    try exact Hin; now apply includes_spec.
Qed.

(** ** [detectQueryType] *)

(** X1.  A query is "brief" exactly when one of the brief keywords
    occurs in its lower-cased text, whatever else occurs; it is
    "detailed" exactly when no brief keyword but some detailed keyword
    occurs; it is "default" exactly when no keyword of either list
    occurs. *)
Theorem detectQueryType_spec (query : string) :
  let anyOf keywords :=
    exists k, In k keywords /\ occursIn k (toLowerCase query) in
  (detectQueryType query = brief <-> anyOf briefKeywords)
  /\ (detectQueryType query = detailed
      <-> ~ anyOf briefKeywords /\ anyOf detailedKeywords)
  /\ (detectQueryType query = default
      <-> ~ anyOf briefKeywords /\ ~ anyOf detailedKeywords).
Proof.
  cbv zeta. unfold detectQueryType.
  rewrite <- !existsb_includes_spec.
  destruct (existsb _ briefKeywords); destruct (existsb _ detailedKeywords);
    repeat split; try discriminate; try reflexivity;
    try (intros [H1 H2]; congruence); intros H; congruence.
Qed.

(** ** File names and MIME types *)

Lemma length_append (a b : string) :
  String.length (a ++ b) = (String.length a + String.length b)%nat.
Proof.
  induction a as [| c a IH]; simpl; [reflexivity | now rewrite IH].
Qed.

Lemma span_le_length (p : ascii -> bool) (s : string) :
  (span p s <= String.length s)%nat.
Proof.
  induction s as [| c s IH]; simpl; [lia |]. destruct (p c); lia.
Qed.

Lemma span_append_stop (p : ascii -> bool) (b : string) (d : ascii)
    (x : string) :
  p d = false -> (span p (b ++ String d x) <= String.length b)%nat.
Proof.
  intros Hd. induction b as [| c b IH]; simpl.
  - rewrite Hd. lia.
  - destruct (p c); lia.
Qed.

Lemma extensionMatch_spec (s e : string) :
  extensionMatch s = Some e
  <-> isExtension e = true /\ exists base, s = base ++ e.
Proof.
  split.
  - induction s as [| c s IH]; cbn [extensionMatch]; [discriminate |].
    destruct (Ascii.eqb c "." && (1 <=? span notDot s)%nat
              && (span notDot s =? String.length s)%nat) eqn:Htest.
    + intros [= <-]. split; [| exists ""; reflexivity].
      cbn [isExtension].
      apply andb_true_iff in Htest as [Htest Hall].
      apply andb_true_iff in Htest as [Hdot Hone].
      rewrite Hdot, Hall. apply Nat.eqb_eq in Hall. rewrite <- Hall, Hone.
      reflexivity.
    + intros H. destruct (IH H) as [He [base Hbase]].
      split; [exact He |]. exists (String c base). now rewrite Hbase.
  - intros [He [base ->]]. induction base as [| c base IH].
    + destruct e as [| d x]; [discriminate |].
      cbn [append extensionMatch]. cbn [isExtension] in He.
      apply andb_true_iff in He as [He Hall].
      apply andb_true_iff in He as [Hdot Hone].
      apply Nat.eqb_eq in Hall.
      rewrite Hdot, Hall, Hone, Nat.eqb_refl. reflexivity.
    + cbn [append extensionMatch]. rewrite IH.
      destruct e as [| d x]; [discriminate |]. cbn [isExtension] in He.
      apply andb_true_iff in He as [He _].
      apply andb_true_iff in He as [Hdot _].
      assert (Hstop : (span notDot (base ++ String d x)
                       <= String.length base)%nat).
      { apply span_append_stop. unfold notDot. now rewrite Hdot. }
      assert (Hneq : (span notDot (base ++ String d x)
                      =? String.length (base ++ String d x))%nat = false).
      { apply Nat.eqb_neq. rewrite length_append. simpl. lia. }
      rewrite Hneq, andb_false_r. reflexivity.
Qed.

Lemma orElse_same (a : string) : orElse a "" = a.
Proof. destruct a; reflexivity. Qed.

Lemma lookup_In (record : list (string * string)) (key value : string) :
  lookup record key = Some value -> In (key, value) record.
Proof.
  induction record as [| [k v] record IH]; cbn [lookup]; [discriminate |].
  destruct (String.eqb_spec key k) as [-> | Hne].
  - intros [= ->]. left; reflexivity.
  - intros H. right. auto.
Qed.

Lemma SUPPORTED_EXTENSIONS_entry (ext mime : string) :
  In (ext, mime) SUPPORTED_EXTENSIONS ->
  isExtension ext = true
  /\ lookup SUPPORTED_EXTENSIONS ext = Some mime
  /\ mime <> ""
  /\ (arrayIncludes SUPPORTED_IMAGE_TYPES mime
      || arrayIncludes SUPPORTED_DOCUMENT_TYPES mime) = true.
Proof.
  unfold SUPPORTED_EXTENSIONS. cbn [In].
  intros H.
  repeat (destruct H as [[= <- <-] | H];
          [repeat split; solve [reflexivity | discriminate] |]).
  contradiction.
Qed.

Lemma getMimeTypeFromExtension_known (filename base ext mime : string) :
  toLowerCase filename = base ++ ext ->
  In (ext, mime) SUPPORTED_EXTENSIONS ->
  getMimeTypeFromExtension filename = mime.
Proof.
  intros Hname Hin.
  destruct (SUPPORTED_EXTENSIONS_entry ext mime Hin) as [Hext [Hlook _]].
  unfold getMimeTypeFromExtension.
  assert (Hm : extensionMatch (toLowerCase filename) = Some ext).
  { apply extensionMatch_spec. split; [exact Hext |]. now exists base. }
  rewrite Hm. cbv zeta. rewrite orElse_same, Hlook. apply orElse_same.
Qed.

(** X2.  [getMimeTypeFromExtension] returns a non-empty MIME type
    exactly when the lower-cased file name ends with one of the ten
    extensions of the table, and then the type the table gives for it;
    every other name (no dot, a dot at the end, an unknown extension)
    gives the empty string. *)
Theorem getMimeTypeFromExtension_spec (filename mime : string) :
  mime <> "" ->
  (getMimeTypeFromExtension filename = mime
   <-> exists base ext,
         toLowerCase filename = base ++ ext
         /\ In (ext, mime) SUPPORTED_EXTENSIONS).
Proof.
  intros Hmime. split.
  - unfold getMimeTypeFromExtension.
    destruct (extensionMatch (toLowerCase filename)) as [m |] eqn:Hm.
    + cbv zeta. rewrite orElse_same.
      destruct (lookup SUPPORTED_EXTENSIONS m) as [v |] eqn:Hv.
      * rewrite orElse_same. intros ->.
        apply extensionMatch_spec in Hm as [_ [base Hbase]].
        exists base, m. split; [exact Hbase | now apply lookup_In].
      * intros H. congruence.
    + cbn. intros H. congruence.
  - intros [base [ext [Hname Hin]]].
    eapply getMimeTypeFromExtension_known; eassumption.
Qed.

Lemma getMimeTypeFromExtension_spec_witness :
  "image/jpeg" <> ""
  /\ (getMimeTypeFromExtension "Holiday.Photo.JPG" = "image/jpeg"
      <-> exists base ext,
            toLowerCase "Holiday.Photo.JPG" = base ++ ext
            /\ In (ext, "image/jpeg") SUPPORTED_EXTENSIONS).
Proof.
  split; [discriminate |].
  apply (getMimeTypeFromExtension_spec "Holiday.Photo.JPG" "image/jpeg").
  discriminate.
Defined.

(** X3.  A file whose browser-reported type is empty and whose
    lower-cased name ends with an extension of the table is always
    accepted, as an image when the table gives an image type and as a
    document otherwise; when the reported type is not empty the file is
    judged by that type alone, as if it had no name. *)
Theorem getFileType_by_extension (file : File.t) (base ext mime : string) :
  toLowerCase (File.name file) = base ++ ext ->
  In (ext, mime) SUPPORTED_EXTENSIONS ->
  getFileType file
  = if String.eqb (File.type file) ""
    then Some (if arrayIncludes SUPPORTED_IMAGE_TYPES mime
               then image else document)
    else getFileType
           {| File.name := "";
              File.type := File.type file;
              File.size := 0 |}.
Proof.
  intros Hname Hin.
  destruct (String.eqb_spec (File.type file) "") as [Htype | Htype].
  - unfold getFileType. rewrite Htype. cbn [orElse].
    rewrite (getMimeTypeFromExtension_known _ base ext mime Hname Hin).
    cbv zeta.
    destruct (SUPPORTED_EXTENSIONS_entry ext mime Hin) as [_ [_ [_ Hsup]]].
    destruct (arrayIncludes SUPPORTED_IMAGE_TYPES mime); [reflexivity |].
    cbn [orb] in Hsup. now rewrite Hsup.
  - unfold getFileType. cbn [File.type].
    destruct (File.type file); [congruence | reflexivity].
Qed.

Lemma getFileType_by_extension_witness :
  toLowerCase "Report.Final.DOCX" = "report.final" ++ ".docx"
  /\ In (".docx",
         "application/vnd.openxmlformats-officedocument.wordprocessingml.document")
       SUPPORTED_EXTENSIONS
  /\ getFileType
       {| File.name := "Report.Final.DOCX"; File.type := ""; File.size := 7 |}
     = Some document.
Proof.
  split; [reflexivity |]. split; [cbn; tauto |].
  apply (getFileType_by_extension
           {| File.name := "Report.Final.DOCX"; File.type := "";
              File.size := 7 |}
           "report.final" ".docx"
           "application/vnd.openxmlformats-officedocument.wordprocessingml.document");
    [reflexivity | cbn; tauto].
Defined.

(** ** [validateFiles] *)

Lemma totalExisting_fold (existingFiles : list FileAttachment.t) (start : N) :
  fold_left (fun sum f => (sum + FileAttachment.size f)%N) existingFiles start
  = (start + totalExisting existingFiles)%N.
Proof.
  revert start. induction existingFiles as [| f l IH]; intros start; simpl.
  - lia.
  - rewrite IH. lia.
Qed.

Lemma totalSize_cons (f : File.t) (files : list File.t) :
  totalSize (f :: files) = (File.size f + totalSize files)%N.
Proof. reflexivity. Qed.

Lemma validateStep_passes (st : ValidationState) (file : File.t) :
  passes (newTotalSize st) file = true ->
  validateStep st file
  = {| newTotalSize := (newTotalSize st + File.size file)%N;
       validSoFar := (validSoFar st ++ [file])%list;
       errorsSoFar := errorsSoFar st |}.
Proof.
  unfold passes, validateStep.
  destruct (getFileType file); [| discriminate].
  destruct (MAX_FILE_SIZE <? File.size file)%N; [discriminate |].
  destruct (MAX_TOTAL_SIZE <? newTotalSize st + File.size file)%N;
    [discriminate | reflexivity].
Qed.

Lemma validateStep_fails (st : ValidationState) (file : File.t) :
  passes (newTotalSize st) file = false ->
  exists message, validateStep st file = pushError st message.
Proof.
  unfold passes, validateStep.
  destruct (getFileType file); [| eauto].
  destruct (MAX_FILE_SIZE <? File.size file)%N; [eauto |].
  destruct (MAX_TOTAL_SIZE <? newTotalSize st + File.size file)%N;
    [eauto | discriminate].
Qed.

Lemma validateLoop_accepted (files : list File.t) (st : ValidationState) :
  exists errs,
    fold_left validateStep files st
    = {| newTotalSize :=
           (newTotalSize st
            + totalSize (accepted (newTotalSize st) files))%N;
         validSoFar :=
           (validSoFar st ++ accepted (newTotalSize st) files)%list;
         errorsSoFar := (errorsSoFar st ++ errs)%list |}
    /\ (List.length errs
        + List.length (accepted (newTotalSize st) files)
        = List.length files)%nat.
Proof.
  revert st. induction files as [| f files IH]; intros st.
  - exists []. cbn. rewrite !app_nil_r, N.add_0_r. destruct st. auto.
  - cbn [fold_left accepted].
    destruct (passes (newTotalSize st) f) eqn:Hp.
    + rewrite (validateStep_passes st f Hp).
      destruct (IH {| newTotalSize := (newTotalSize st + File.size f)%N;
                      validSoFar := (validSoFar st ++ [f])%list;
                      errorsSoFar := errorsSoFar st |}) as [errs [Heq Hlen]].
      cbn [newTotalSize validSoFar errorsSoFar] in Heq, Hlen.
      exists errs. rewrite Heq. split.
      * rewrite totalSize_cons, <- app_assoc. cbn [app].
        f_equal. lia.
      * cbn [List.length]. lia.
    + destruct (validateStep_fails st f Hp) as [message Hstep].
      rewrite Hstep.
      destruct (IH (pushError st message)) as [errs [Heq Hlen]].
      cbn [pushError newTotalSize validSoFar errorsSoFar] in Heq, Hlen.
      exists (message :: errs). rewrite Heq. split.
      * rewrite <- app_assoc. reflexivity.
      * cbn [List.length]. lia.
Qed.

Lemma validateFiles_accepted (files : list File.t)
    (existingFiles : list FileAttachment.t) :
  (MAX_FILES <? List.length existingFiles + List.length files)%nat = false ->
  exists errs,
    validateFiles files existingFiles
    = {| valid := accepted (totalExisting existingFiles) files;
         errors := errs |}
    /\ (List.length errs
        + List.length (accepted (totalExisting existingFiles) files)
        = List.length files)%nat.
Proof.
  intros Hcount. unfold validateFiles. rewrite Hcount. cbv zeta.
  rewrite totalExisting_fold, N.add_0_l.
  destruct (validateLoop_accepted files
              {| newTotalSize := totalExisting existingFiles;
                 validSoFar := []; errorsSoFar := [] |}) as [errs [Heq Hlen]].
  cbn [newTotalSize validSoFar errorsSoFar] in Heq, Hlen.
  exists errs. rewrite Heq. cbn. auto.
Qed.

Lemma valid_validateFiles (files : list File.t)
    (existingFiles : list FileAttachment.t) :
  valid (validateFiles files existingFiles)
  = if (MAX_FILES <? List.length existingFiles + List.length files)%nat
    then []
    else accepted (totalExisting existingFiles) files.
Proof.
  destruct (MAX_FILES <? _)%nat eqn:Hcount.
  - unfold validateFiles. rewrite Hcount. reflexivity.
  - destruct (validateFiles_accepted files existingFiles Hcount)
      as [errs [Heq _]].
    rewrite Heq. reflexivity.
Qed.

Lemma accepted_Subsequence (files : list File.t) (total : N) :
  Subsequence (accepted total files) files.
Proof.
  revert total. induction files as [| f files IH]; intros total; simpl.
  - constructor.
  - destruct (passes total f); constructor; apply IH.
Qed.

Lemma Subsequence_nil_l {A : Type} (l : list A) : Subsequence [] l.
Proof. induction l; constructor; assumption. Qed.

Lemma Subsequence_length {A : Type} (sub l : list A) :
  Subsequence sub l -> (List.length sub <= List.length l)%nat.
Proof. induction 1; simpl; lia. Qed.

Lemma accepted_limits (files : list File.t) (total : N) :
  Forall (fun f => getFileType f <> None
                   /\ (File.size f <= MAX_FILE_SIZE)%N)
    (accepted total files).
Proof.
  revert total. induction files as [| f files IH]; intros total; simpl.
  - constructor.
  - destruct (passes total f) eqn:Hp; [| apply IH].
    constructor; [| apply IH].
    unfold passes in Hp. destruct (getFileType f); [| discriminate].
    apply andb_true_iff in Hp as [Hsize _].
    apply negb_true_iff, N.ltb_ge in Hsize. split; [discriminate | exact Hsize].
Qed.

Lemma accepted_total (files : list File.t) (total : N) :
  accepted total files = []
  \/ (total + totalSize (accepted total files) <= MAX_TOTAL_SIZE)%N.
Proof.
  revert total. induction files as [| f files IH]; intros total;
    cbn [accepted].
  - left; reflexivity.
  - destruct (passes total f) eqn:Hp; [| apply IH].
    right. rewrite totalSize_cons.
    unfold passes in Hp. destruct (getFileType f); [| discriminate].
    apply andb_true_iff in Hp as [_ Htot].
    apply negb_true_iff, N.ltb_ge in Htot.
    destruct (IH (total + File.size f)%N) as [Hnil | Hle].
    + rewrite Hnil. change (totalSize []) with 0%N. lia.
    + lia.
Qed.

(** X4.  Every file that [validateFiles] accepts has a supported type
    and at most 10 MB, and, unless no file is accepted, the accepted
    files together with the existing attachments take at most 20 MB. *)
Theorem validateFiles_limits (files : list File.t)
    (existingFiles : list FileAttachment.t) :
  Forall (fun f => getFileType f <> None
                   /\ (File.size f <= 10 * 1024 * 1024)%N)
    (valid (validateFiles files existingFiles))
  /\ (valid (validateFiles files existingFiles) = []
      \/ (totalExisting existingFiles
          + totalSize (valid (validateFiles files existingFiles))
          <= 20 * 1024 * 1024)%N).
Proof.
  rewrite valid_validateFiles.
  destruct (MAX_FILES <? _)%nat.
  - split; [constructor | left; reflexivity].
  - split; [apply accepted_limits | apply accepted_total].
Qed.

(** X5.  The accepted files are some of the submitted files, in the
    order of submission.  When the existing and the submitted files are
    more than five, no file is accepted and the only error is "Maximum 5
    files allowed"; otherwise every submitted file is either accepted or
    gets exactly one error message. *)
Theorem validateFiles_accounting (files : list File.t)
    (existingFiles : list FileAttachment.t) :
  Subsequence (valid (validateFiles files existingFiles)) files
  /\ if (5 <? List.length existingFiles + List.length files)%nat
     then validateFiles files existingFiles
          = {| valid := []; errors := ["Maximum 5 files allowed"] |}
     else (List.length (valid (validateFiles files existingFiles))
           + List.length (errors (validateFiles files existingFiles))
           = List.length files)%nat.
Proof.
  split.
  - rewrite valid_validateFiles.
    destruct (MAX_FILES <? _)%nat;
      [apply Subsequence_nil_l | apply accepted_Subsequence].
  - change 5%nat with MAX_FILES.
    destruct (MAX_FILES <? _)%nat eqn:Hcount.
    + unfold validateFiles. rewrite Hcount. reflexivity.
    + destruct (validateFiles_accepted files existingFiles Hcount)
        as [errs [Heq Hlen]].
      rewrite Heq. cbn [valid errors]. lia.
Qed.

Lemma valid_within_count (files : list File.t)
    (existingFiles : list FileAttachment.t) :
  (List.length existingFiles <= MAX_FILES)%nat ->
  (List.length existingFiles
   + List.length (valid (validateFiles files existingFiles))
   <= MAX_FILES)%nat.
Proof.
  intros Hexisting. rewrite valid_validateFiles.
  destruct (Nat.ltb_spec MAX_FILES
              (List.length existingFiles + List.length files)) as [H | H].
  - cbn [List.length]. lia.
  - pose proof (Subsequence_length _ _
                  (accepted_Subsequence files (totalExisting existingFiles))).
    lia.
Qed.

(** X6.  When at most five attachments exist, the existing attachments
    and the accepted files are never more than five. *)
Theorem validateFiles_count (files : list File.t)
    (existingFiles : list FileAttachment.t) :
  (List.length existingFiles <= 5)%nat ->
  (List.length existingFiles
   + List.length (valid (validateFiles files existingFiles)) <= 5)%nat.
Proof.
  exact (valid_within_count files existingFiles).
Qed.

Lemma validateFiles_count_witness :
  (List.length ([] : list FileAttachment.t) <= 5)%nat
  /\ (List.length ([] : list FileAttachment.t)
      + List.length
          (valid (validateFiles
                    [ {| File.name := "a.png"; File.type := "";
                         File.size := 1 |} ] []))
      <= 5)%nat.
Proof.
  split; [cbn; lia |].
  apply (validateFiles_count
           [ {| File.name := "a.png"; File.type := ""; File.size := 1 |} ] []).
  cbn; lia.
Defined.

Lemma accepted_idempotent (files : list File.t) (total : N) :
  accepted total (accepted total files) = accepted total files.
Proof.
  revert total. induction files as [| f files IH]; intros total;
    cbn [accepted]; [reflexivity |].
  destruct (passes total f) eqn:Hp; [| apply IH].
  cbn [accepted]. rewrite Hp, IH. reflexivity.
Qed.

(** X7.  Validation is idempotent: when at most five attachments
    exist, submitting again the files that were accepted accepts all of
    them, in the same order, without any error. *)
Theorem validateFiles_idempotent (files : list File.t)
    (existingFiles : list FileAttachment.t) :
  (List.length existingFiles <= 5)%nat ->
  validateFiles (valid (validateFiles files existingFiles)) existingFiles
  = {| valid := valid (validateFiles files existingFiles); errors := [] |}.
Proof.
  intros Hexisting.
  pose proof (valid_within_count files existingFiles Hexisting) as Hcount.
  assert (Hkept : accepted (totalExisting existingFiles)
                    (valid (validateFiles files existingFiles))
                  = valid (validateFiles files existingFiles)).
  { rewrite valid_validateFiles.
    destruct (MAX_FILES <? List.length existingFiles + List.length files)%nat;
      [reflexivity | apply accepted_idempotent]. }
  set (kept := valid (validateFiles files existingFiles)) in *.
  assert (Hnot : (MAX_FILES <? List.length existingFiles + List.length kept)%nat
                 = false) by (apply Nat.ltb_ge; exact Hcount).
  destruct (validateFiles_accepted kept existingFiles Hnot)
    as [errs [Heq Hlen]].
  rewrite Hkept in Heq, Hlen. rewrite Heq. f_equal.
  destruct errs; [reflexivity | cbn [List.length] in Hlen; lia].
Qed.

Lemma validateFiles_idempotent_witness :
  (List.length ([] : list FileAttachment.t) <= 5)%nat
  /\ validateFiles
       (valid (validateFiles
                 [ {| File.name := "big.pdf"; File.type := "";
                      File.size := 11000000 |};
                   {| File.name := "a.png"; File.type := "";
                      File.size := 1 |} ] []))
       []
     = {| valid :=
            valid (validateFiles
                     [ {| File.name := "big.pdf"; File.type := "";
                          File.size := 11000000 |};
                       {| File.name := "a.png"; File.type := "";
                          File.size := 1 |} ] []);
          errors := [] |}.
Proof.
  split; [cbn; lia |].
  apply (validateFiles_idempotent
           [ {| File.name := "big.pdf"; File.type := "";
                File.size := 11000000 |};
             {| File.name := "a.png"; File.type := ""; File.size := 1 |} ]
           []).
  cbn; lia.
Defined.

Lemma accepted_app (pre post : list File.t) (total : N) :
  accepted total (pre ++ post)
  = (accepted total pre
     ++ accepted (total + totalSize (accepted total pre)) post)%list.
Proof.
  revert total. induction pre as [| f pre IH]; intros total.
  - cbn. now rewrite N.add_0_r.
  - cbn [app accepted]. destruct (passes total f); [| apply IH].
    rewrite IH, totalSize_cons, N.add_assoc. reflexivity.
Qed.

(** X8.  A file that is rejected for its type or for its own size has
    no influence on the other files: as long as the count limit is
    respected, the files accepted with it in the list are those
    accepted without it. *)
Theorem validateFiles_rejected_is_neutral (pre post : list File.t)
    (bad : File.t) (existingFiles : list FileAttachment.t) :
  getFileType bad = None \/ (10 * 1024 * 1024 < File.size bad)%N ->
  (List.length existingFiles + List.length (pre ++ bad :: post) <= 5)%nat ->
  valid (validateFiles (pre ++ bad :: post) existingFiles)
  = valid (validateFiles (pre ++ post) existingFiles).
Proof.
  intros Hbad Hcount.
  assert (Hfail : forall total, passes total bad = false).
  { intros total. unfold passes. destruct Hbad as [-> | Hsize];
      [reflexivity |].
    destruct (getFileType bad); [| reflexivity].
    apply N.ltb_lt in Hsize. fold MAX_FILE_SIZE in Hsize.
    now rewrite Hsize. }
  rewrite !valid_validateFiles.
  rewrite length_app in Hcount. cbn [List.length] in Hcount.
  assert (H1 : (MAX_FILES
                <? List.length existingFiles
                   + List.length (pre ++ bad :: post))%nat = false).
  { apply Nat.ltb_ge. rewrite length_app. cbn [List.length].
    unfold MAX_FILES. lia. }
  assert (H2 : (MAX_FILES
                <? List.length existingFiles
                   + List.length (pre ++ post))%nat = false).
  { apply Nat.ltb_ge. rewrite length_app. unfold MAX_FILES. lia. }
  rewrite H1, H2, !accepted_app. cbn [accepted]. now rewrite Hfail.
Qed.

Lemma validateFiles_rejected_is_neutral_witness :
  (getFileType {| File.name := "tool.exe"; File.type := ""; File.size := 9 |}
   = None
   \/ (10 * 1024 * 1024
       < File.size {| File.name := "tool.exe"; File.type := "";
                      File.size := 9 |})%N)
  /\ valid (validateFiles
              ([ {| File.name := "a.png"; File.type := ""; File.size := 1 |} ]
               ++ {| File.name := "tool.exe"; File.type := "";
                     File.size := 9 |}
                  :: [ {| File.name := "b.txt"; File.type := "";
                          File.size := 2 |} ])
              [])
     = valid (validateFiles
                ([ {| File.name := "a.png"; File.type := "";
                      File.size := 1 |} ]
                 ++ [ {| File.name := "b.txt"; File.type := "";
                         File.size := 2 |} ])
                []).
Proof.
  split; [left; reflexivity |].
  apply (validateFiles_rejected_is_neutral
           [ {| File.name := "a.png"; File.type := ""; File.size := 1 |} ]
           [ {| File.name := "b.txt"; File.type := ""; File.size := 2 |} ]
           {| File.name := "tool.exe"; File.type := ""; File.size := 9 |}
           []).
  - left; reflexivity.
  - cbn; lia.
Defined.

(** ** [extractKeywords] *)

Lemma forallChars_append (p : ascii -> bool) (a b : string) :
  forallChars p (a ++ b) = forallChars p a && forallChars p b.
Proof.
  induction a as [| c a IH]; simpl; [reflexivity |].
  now rewrite IH, andb_assoc.
Qed.

Lemma sepSpaces_none (c : ascii) (rest : string) :
  (forall n, sepSpaces (String c rest) <> Some (S n)) -> isSpace c = false.
Proof.
  intros H. destruct (isSpace c) eqn:Hc; [| reflexivity].
  exfalso. apply (H (span isSpace rest)).
  unfold sepSpaces. cbn [span]. rewrite Hc. reflexivity.
Qed.

Lemma split_spaces_pieces (k : ascii -> bool) (s : string) :
  forall (skip : nat) (piece : string),
    forallChars (fun c => k c || isSpace c) s = true ->
    forallChars k piece = true ->
    Forall (fun w => forallChars k w = true)
      (splitFrom sepSpaces skip piece s).
Proof.
  induction s as [| c rest IH]; intros skip piece Hs Hpiece.
  - cbn. constructor; [exact Hpiece | constructor].
  - cbn [forallChars] in Hs. apply andb_true_iff in Hs as [Hc Hrest].
    cbn [splitFrom]. destruct skip as [| skip]; [| now apply IH].
    destruct (sepSpaces (String c rest)) as [[| n] |] eqn:Hsep.
    + apply IH; [exact Hrest |].
      rewrite forallChars_append, Hpiece. cbn.
      assert (Hns : isSpace c = false)
        by (apply (sepSpaces_none c rest); intros n; rewrite Hsep; discriminate).
      rewrite Hns, orb_false_r in Hc. now rewrite Hc.
    + constructor; [exact Hpiece |]. now apply IH.
    + apply IH; [exact Hrest |].
      rewrite forallChars_append, Hpiece. cbn.
      assert (Hns : isSpace c = false)
        by (apply (sepSpaces_none c rest); intros n; rewrite Hsep; discriminate).
      rewrite Hns, orb_false_r in Hc. now rewrite Hc.
Qed.

Lemma cleaned_char (c : ascii) :
  let d := lowerChar c in
  let e := if negb (isWordChar d || isSpace d) then " "%char else d in
  isKeywordChar e || isSpace e = true.
Proof.
  destruct c as [[] [] [] [] [] [] [] []]; reflexivity.
Qed.

Lemma cleaned_text (text : string) :
  forallChars (fun c => isKeywordChar c || isSpace c)
    (replaceChars (fun c => negb (isWordChar c || isSpace c)) " "
       (toLowerCase text)) = true.
Proof.
  induction text as [| c text IH]; [reflexivity |].
  cbn [toLowerCase replaceChars forallChars].
  rewrite IH, andb_true_r. apply cleaned_char.
Qed.

(** X9.  Every keyword that [extractKeywords] returns has at least
    three characters, all of them among a-z, 0-9 and the underscore: no
    capital, no punctuation and no white space survives. *)
Theorem extractKeywords_shape (text : string) :
  Forall (fun word =>
            (3 <= String.length word)%nat
            /\ forallChars isKeywordChar word = true)
    (extractKeywords text).
Proof.
  unfold extractKeywords. apply Forall_forall. intros word Hin.
  apply filter_In in Hin as [Hin Hlen]. split.
  - apply Nat.ltb_lt in Hlen. lia.
  - pose proof (split_spaces_pieces isKeywordChar _ O ""
                  (cleaned_text text) eq_refl) as Hall.
    rewrite Forall_forall in Hall. now apply Hall.
Qed.

(** ** [trim] and [chunkText] *)

Lemma ink_append (a b : string) : ink (a ++ b) = ink a ++ ink b.
Proof.
  induction a as [| c a IH]; simpl; [reflexivity |].
  destruct (isSpace c); simpl; now rewrite IH.
Qed.

Lemma ink_trimStart (s : string) : ink (trimStart s) = ink s.
Proof.
  induction s as [| c s IH]; simpl; [reflexivity |].
  destruct (isSpace c) eqn:Hc; [exact IH |]. simpl. now rewrite Hc.
Qed.

Lemma trimEnd_empty (s : string) : trimEnd s = "" -> ink s = "".
Proof.
  induction s as [| c s IH]; simpl; [reflexivity |].
  destruct (trimEnd s) as [| d t]; [| discriminate].
  destruct (isSpace c); [intros _; now apply IH | discriminate].
Qed.

Lemma ink_trimEnd (s : string) : ink (trimEnd s) = ink s.
Proof.
  induction s as [| c s IH]; simpl; [reflexivity |].
  destruct (trimEnd s) as [| d t] eqn:Ht.
  - rewrite (trimEnd_empty s Ht).
    destruct (isSpace c) eqn:Hc; simpl; [reflexivity | now rewrite Hc].
  - cbn [ink]. rewrite <- IH. reflexivity.
Qed.

Lemma ink_trim (s : string) : ink (trim s) = ink s.
Proof. unfold trim. now rewrite ink_trimEnd, ink_trimStart. Qed.

Lemma trimEnd_idempotent (s : string) : trimEnd (trimEnd s) = trimEnd s.
Proof.
  induction s as [| c s IH]; simpl; [reflexivity |].
  destruct (trimEnd s) as [| d t] eqn:Ht.
  - destruct (isSpace c) eqn:Hc; simpl; [reflexivity | now rewrite Hc].
  - cbn [trimEnd]. cbn [trimEnd] in IH. rewrite IH. reflexivity.
Qed.

Lemma trimStart_head (s : string) :
  trimStart s = ""
  \/ exists c r, trimStart s = String c r /\ isSpace c = false.
Proof.
  induction s as [| c s IH]; simpl; [left; reflexivity |].
  destruct (isSpace c) eqn:Hc; [exact IH |]. right. eauto.
Qed.

Lemma trim_head (s : string) :
  trim s = "" \/ exists c r, trim s = String c r /\ isSpace c = false.
Proof.
  unfold trim. destruct (trimStart_head s) as [-> | [c [r [-> Hc]]]].
  - left; reflexivity.
  - right. cbn [trimEnd]. rewrite Hc.
    destruct (trimEnd r); eauto.
Qed.

Lemma trim_idempotent (s : string) : trim (trim s) = trim s.
Proof.
  destruct (trim_head s) as [H | [c [r [H Hc]]]].
  - rewrite H. reflexivity.
  - unfold trim at 1. rewrite H. cbn [trimStart]. rewrite Hc, <- H.
    unfold trim. apply trimEnd_idempotent.
Qed.

Lemma concat_cons (x : string) (l : list string) :
  concat "" (x :: l) = x ++ concat "" l.
Proof.
  destruct l; simpl; [now rewrite append_nil_r | reflexivity].
Qed.

Lemma dropChars_empty (n : nat) : dropChars n "" = "".
Proof. destruct n; reflexivity. Qed.

Lemma split_ink (sep : separator) (s : string) :
  blankSeparator sep ->
  forall (skip : nat) (piece : string),
    ink (concat "" (splitFrom sep skip piece s))
    = ink piece ++ ink (dropChars skip s).
Proof.
  intros Hsep. induction s as [| c rest IH]; intros skip piece.
  - cbn [splitFrom concat]. now rewrite dropChars_empty, append_nil_r.
  - cbn [splitFrom]. destruct skip as [| skip]; [| apply IH].
    destruct (sep (String c rest)) as [[| n] |] eqn:Hm.
    + rewrite IH, ink_append, append_assoc. cbn [dropChars ink].
      destruct (isSpace c); reflexivity.
    + rewrite concat_cons, ink_append, IH.
      cbn [ink append]. f_equal. exact (Hsep _ _ Hm).
    + rewrite IH, ink_append, append_assoc. cbn [dropChars ink].
      destruct (isSpace c); reflexivity.
Qed.

Lemma ink_dropChars_span (s : string) (j : nat) :
  (j <= span isSpace s)%nat -> ink (dropChars j s) = ink s.
Proof.
  revert j. induction s as [| c s IH]; intros j Hj.
  - now rewrite dropChars_empty.
  - destruct j as [| j]; [reflexivity |].
    cbn [span] in Hj. cbn [dropChars ink].
    destruct (isSpace c); [apply IH; lia | lia].
Qed.

Lemma ink_dropChars_newline (s : string) (j : nat) :
  isNewline (get j s) = true ->
  ink (dropChars (S j) s) = ink (dropChars j s).
Proof.
  revert j. induction s as [| c s IH]; intros j Hj.
  - destruct j; discriminate.
  - destruct j as [| j].
    + cbn in Hj. cbn [dropChars ink].
      apply N.eqb_eq in Hj.
      assert (Hc : isSpace c = true) by (unfold isSpace; now rewrite Hj).
      now rewrite Hc.
    + cbn [get] in Hj. cbn [dropChars]. apply (IH j Hj).
Qed.

Lemma backtrackBlank_some (s : string) (k m : nat) :
  backtrackBlank s k = Some m ->
  exists j, (j <= k)%nat /\ m = (j + 2)%nat
            /\ isNewline (get (S j) s) = true.
Proof.
  induction k as [| k IH]; cbn [backtrackBlank].
  - destruct (isNewline (get 1 s)) eqn:Hn; [| discriminate].
    intros [= <-]. exists O. auto.
  - destruct (isNewline (get (S (S k)) s)) eqn:Hn.
    + intros [= <-]. exists (S k). auto.
    + intros H. destruct (IH H) as [j [Hj Hrest]]. exists j. split; [lia | exact Hrest].
Qed.

Lemma sepBlankLine_blank : blankSeparator sepBlankLine.
Proof.
  intros s n Hm. destruct s as [| c rest]; [discriminate |].
  cbn [sepBlankLine] in Hm.
  destruct (isNewline (Some c)) eqn:Hc; [| discriminate].
  apply backtrackBlank_some in Hm as [j [Hj [Hn Hnl]]].
  assert (Hnj : n = S j) by lia. subst n.
  cbn [get] in Hnl.
  change (dropChars (S (S j)) (String c rest)) with (dropChars (S j) rest).
  rewrite (ink_dropChars_newline rest j Hnl).
  rewrite (ink_dropChars_span rest j Hj).
  cbn [ink]. cbn in Hc. apply N.eqb_eq in Hc.
  assert (Hsp : isSpace c = true) by (unfold isSpace; now rewrite Hc).
  now rewrite Hsp.
Qed.

Lemma ink_chunks (pieces : list string) :
  ink (concat ""
         (filter (fun chunk => (0 <? String.length chunk)%nat)
            (map (fun chunk => trim chunk) pieces)))
  = ink (concat "" pieces).
Proof.
  induction pieces as [| p pieces IH]; [reflexivity |].
  cbn [map filter]. rewrite (concat_cons p), ink_append, <- IH.
  destruct (trim p) as [| c t] eqn:Ht.
  - cbn [String.length Nat.ltb Nat.leb]. rewrite <- (ink_trim p), Ht.
    reflexivity.
  - cbn [String.length Nat.ltb Nat.leb].
    rewrite concat_cons, ink_append, <- Ht, ink_trim. reflexivity.
Qed.

Lemma chunkText_ink (text : string) :
  ink (concat "" (chunkText text)) = ink text.
Proof.
  unfold chunkText. cbv zeta. rewrite ink_chunks. unfold split.
  rewrite (split_ink sepBlankLine text sepBlankLine_blank O "").
  reflexivity.
Qed.

Lemma chunkText_chunks (text : string) :
  Forall (fun chunk => chunk <> "" /\ trim chunk = chunk) (chunkText text).
Proof.
  unfold chunkText. cbv zeta. apply Forall_forall. intros chunk Hin.
  apply filter_In in Hin as [Hin Hlen].
  apply in_map_iff in Hin as [p [<- _]]. split.
  - intros H. rewrite H in Hlen. discriminate.
  - apply trim_idempotent.
Qed.

Lemma hasInk_ink (s : string) : hasInk s = false <-> ink s = "".
Proof.
  induction s as [| c s IH]; simpl; [tauto |].
  destruct (isSpace c); simpl; [exact IH |]. split; discriminate.
Qed.

Lemma chunkText_nil (text : string) :
  chunkText text = [] <-> hasInk text = false.
Proof.
  rewrite hasInk_ink, <- chunkText_ink. split.
  - intros ->. reflexivity.
  - intros Hink. pose proof (chunkText_chunks text) as Hall.
    destruct (chunkText text) as [| chunk rest]; [reflexivity |].
    exfalso. inversion Hall as [| ? ? [Hne Htrim] _]; subst.
    rewrite concat_cons, ink_append in Hink.
    destruct (trim_head chunk) as [H | [c [r [H Hc]]]];
      rewrite Htrim in H; [contradiction |].
    rewrite H in Hink. cbn [ink] in Hink. rewrite Hc in Hink.
    discriminate.
Qed.

(** X10.  [chunkText] loses nothing but white space: the chunks, read
    one after the other without their white space, are the text without
    its white space.  Every chunk is non-empty and has no white space at
    either end, and there is no chunk at all exactly when the text is
    empty or white space only. *)
Theorem chunkText_keeps_ink (text : string) :
  ink (concat "" (chunkText text)) = ink text
  /\ Forall (fun chunk => chunk <> "" /\ trim chunk = chunk) (chunkText text)
  /\ (chunkText text = [] <-> hasInk text = false).
Proof.
  split; [apply chunkText_ink |].
  split; [apply chunkText_chunks | apply chunkText_nil].
Qed.

(** ** [moodToSprite] *)

Lemma unitsEqb_eq (a b : list N) : unitsEqb a b = true <-> a = b.
Proof.
  revert b. induction a as [| x a IH]; intros [| y b]; cbn [unitsEqb];
    try (split; [discriminate | intros H; discriminate]);
    [tauto |].
  rewrite andb_true_iff, N.eqb_eq, IH. split.
  - intros [-> ->]. reflexivity.
  - intros [= -> ->]. auto.
Qed.

Lemma switchSprite_result (tag : list N)
    (cases : list (string * SpriteState)) (result : SpriteState) :
  switchSprite tag cases = Some result ->
  exists label, In (label, result) cases /\ tag = units label.
Proof.
  induction cases as [| [label r] cases IH]; cbn [switchSprite];
    [discriminate |].
  destruct (unitsEqb tag (units label)) eqn:Heq.
  - intros [= ->]. exists label. split; [left; reflexivity |].
    now apply unitsEqb_eq.
  - intros H. destruct (IH H) as [l [Hin Hl]]. exists l.
    split; [right; exact Hin | exact Hl].
Qed.

Lemma moodToSprite_not_idle (mood : string) : moodToSprite mood <> idle.
Proof.
  unfold moodToSprite.
  destruct (switchSprite (toUpperCase mood) spriteCases) as [r |] eqn:Hs;
    [| discriminate].
  apply switchSprite_result in Hs as [label [Hin _]].
  cbn [spriteCases In] in Hin.
  repeat (destruct Hin as [[= <- <-] | Hin]; [discriminate |]).
  contradiction.
Qed.

Lemma upperUnits_asciiLowerChar (c : ascii) :
  upperUnits (asciiLowerChar c) = upperUnits c.
Proof.
  destruct c as [[] [] [] [] [] [] [] []]; reflexivity.
Qed.

Lemma toUpperCase_asciiLower (s : string) :
  toUpperCase (asciiLower s) = toUpperCase s.
Proof.
  unfold toUpperCase. induction s as [| c s IH]; [reflexivity |].
  cbn [asciiLower list_ascii_of_string flat_map].
  now rewrite upperUnits_asciiLowerChar, IH.
Qed.

(** X11.  [moodToSprite] does not look at the case of the letters A-Z
    of the tag: two tags that become equal when their capitals A-Z are
    replaced by small letters get the same sprite.  It never gives the
    sprite "idle", and it gives "pointing" exactly for the tags whose
    upper-case form is OBJECTING or POINTING. *)
Theorem moodToSprite_ascii_case_insensitive (a b : string) :
  asciiLower a = asciiLower b ->
  moodToSprite a = moodToSprite b
  /\ moodToSprite a <> idle
  /\ (moodToSprite a = pointing
      <-> toUpperCase a = units "OBJECTING"
          \/ toUpperCase a = units "POINTING").
Proof.
  intros Hab. split; [| split].
  - unfold moodToSprite.
    rewrite <- (toUpperCase_asciiLower a), Hab, toUpperCase_asciiLower.
    reflexivity.
  - apply moodToSprite_not_idle.
  - unfold moodToSprite. split.
    + destruct (switchSprite (toUpperCase a) spriteCases) as [r |] eqn:Hs;
        [| discriminate].
      intros ->. apply switchSprite_result in Hs as [label [Hin Hl]].
      cbn [spriteCases In] in Hin.
      repeat (destruct Hin as [Hin' | Hin];
              [first [ discriminate Hin'
                     | injection Hin' as <-;
                       solve [left; exact Hl | right; exact Hl] ] |]).
      contradiction.
    + intros [-> | ->]; reflexivity.
Qed.

Lemma moodToSprite_ascii_case_insensitive_witness :
  asciiLower "Objecting" = asciiLower "OBJECTING"
  /\ moodToSprite "Objecting" = moodToSprite "OBJECTING".
Proof.
  split; [reflexivity |].
  exact (proj1 (moodToSprite_ascii_case_insensitive "Objecting" "OBJECTING"
                  eq_refl)).
Defined.

(** ** The response of [chat] and the objection flag of the route *)

Lemma trim_hasInk (s : string) : trim s <> "" -> hasInk (trim s) = true.
Proof.
  intros Hne. destruct (trim_head s) as [H | [c [r [H Hc]]]];
    [contradiction |].
  rewrite H. cbn [hasInk]. now rewrite Hc.
Qed.

(** X12.  Every response that [chat] returns, built from a model
    answer or produced by the error branch, has a non-empty text, at
    least one chunk, chunks that are non-empty and trimmed, and a sprite
    other than "idle". *)
Theorem chatResponse_never_empty (moodTag beforeTrim : string)
    (queryType : QueryType) :
  let ok (response : ChatResponse.t) :=
    ChatResponse.text response <> ""
    /\ ChatResponse.chunks response <> []
    /\ Forall (fun chunk => chunk <> "" /\ trim chunk = chunk)
         (ChatResponse.chunks response)
    /\ ChatResponse.spriteState response <> idle in
  ok (chatResponse moodTag beforeTrim queryType) /\ ok chatErrorResponse.
Proof.
  cbv zeta. split.
  - unfold chatResponse. cbv zeta.
    cbn [ChatResponse.text ChatResponse.chunks ChatResponse.spriteState].
    assert (Hink : hasInk (orElse (trim beforeTrim) fallbackText) = true).
    { destruct (trim beforeTrim) as [| c r] eqn:Ht; [reflexivity |].
      cbn [orElse]. rewrite <- Ht. apply trim_hasInk. rewrite Ht.
      discriminate. }
    split; [| split; [| split]].
    + intros H. rewrite H in Hink. discriminate.
    + intros H. apply chunkText_nil in H. congruence.
    + apply chunkText_chunks.
    + apply moodToSprite_not_idle.
  - repeat split; try discriminate.
    repeat constructor; discriminate.
Qed.

(** X13.  The objection flag that the chat route sends is the flag that
    [chat] computed, or-ed with "the text contains hold it!"; the guard
    of [shouldTriggerObjection] against an empty text never decides.
    For the response of the error branch, whose own flag is false, the
    route sends true, because its text starts with "Objection!". *)
Theorem routeIsObjection_override (moodTag beforeTrim : string)
    (queryType : QueryType) :
  routeIsObjection (chatResponse moodTag beforeTrim queryType)
  = ChatResponse.isObjection (chatResponse moodTag beforeTrim queryType)
    || includes (toLowerCase (trim beforeTrim)) "hold it!"
  /\ ChatResponse.isObjection chatErrorResponse = false
  /\ routeIsObjection chatErrorResponse = true.
Proof.
  split; [| split; reflexivity].
  unfold routeIsObjection, chatResponse. cbv zeta.
  cbn [ChatResponse.text ChatResponse.mood ChatResponse.isObjection].
  destruct (trim beforeTrim) as [| c r] eqn:Ht.
  - cbn [orElse]. unfold shouldTriggerObjection, fallbackText.
    destruct (String.eqb moodTag "OBJECTING"); reflexivity.
  - cbn [orElse]. reflexivity.
Qed.

(** ** [searchEvidence] *)

Lemma insertByScore_map (query : string) (x : EvidenceDoc.t)
    (ranked : list EvidenceDoc.t) :
  insertByScore (scoreOf query x) (map (scoreOf query) ranked)
  = map (scoreOf query) (insertByOverlap query x ranked).
Proof.
  induction ranked as [| y ranked IH]; [reflexivity |].
  cbn [map insertByScore insertByOverlap]. cbn [scoreOf Scored.score].
  destruct (overlap query y <=? overlap query x)%nat; [reflexivity |].
  cbn [map]. now rewrite <- IH.
Qed.

Lemma sortByScore_map (query : string) (docs : list EvidenceDoc.t) :
  sortByScore (map (scoreOf query) docs)
  = map (scoreOf query) (rankDocs query docs).
Proof.
  induction docs as [| x docs IH]; [reflexivity |].
  cbn [map sortByScore rankDocs]. now rewrite IH, insertByScore_map.
Qed.

Lemma filter_scoreOf (query : string) (docs : list EvidenceDoc.t) :
  filter (fun s => (0 <? Scored.score s)%nat) (map (scoreOf query) docs)
  = map (scoreOf query) (filter (hasOverlap query) docs).
Proof.
  induction docs as [| x docs IH]; [reflexivity |].
  cbn [map filter]. cbn [scoreOf Scored.score]. unfold hasOverlap at 1.
  destruct (0 <? overlap query x)%nat; cbn [map]; now rewrite IH.
Qed.

Lemma searchEvidence_ranked (query : string)
    (evidence : list EvidenceDoc.t) :
  searchEvidence evidence query
  = match firstn 3 (filter (hasOverlap query) (rankDocs query evidence)) with
    | [] => renderEvidence evidence
    | top => renderEvidence top
    end.
Proof.
  unfold searchEvidence. cbv zeta.
  change (map (fun doc =>
                 {| Scored.doc := doc;
                    Scored.score :=
                      List.length
                        (filter (fun kw =>
                                   arrayIncludes (EvidenceDoc.keywords doc) kw)
                           (extractKeywords query)) |}) evidence)
    with (map (scoreOf query) evidence).
  rewrite sortByScore_map, filter_scoreOf, firstn_map.
  destruct (firstn 3 (filter (hasOverlap query) (rankDocs query evidence)))
    as [| d top]; [reflexivity |].
  cbn [map List.length Nat.eqb]. unfold renderEvidence.
  rewrite map_map. reflexivity.
Qed.

Lemma insertByOverlap_perm (query : string) (x : EvidenceDoc.t)
    (ranked : list EvidenceDoc.t) :
  Permutation (insertByOverlap query x ranked) (x :: ranked).
Proof.
  induction ranked as [| y ranked IH]; cbn [insertByOverlap];
    [reflexivity |].
  destruct (overlap query y <=? overlap query x)%nat; [reflexivity |].
  rewrite IH. apply perm_swap.
Qed.

Lemma rankDocs_perm (query : string) (docs : list EvidenceDoc.t) :
  Permutation (rankDocs query docs) docs.
Proof.
  induction docs as [| x docs IH]; cbn [rankDocs]; [reflexivity |].
  rewrite insertByOverlap_perm. now constructor.
Qed.

Lemma insertByOverlap_sorted (query : string) (x : EvidenceDoc.t)
    (ranked : list EvidenceDoc.t) :
  byOverlap query ranked -> byOverlap query (insertByOverlap query x ranked).
Proof.
  unfold byOverlap. induction 1 as [| y ranked Hsorted IH Hall];
    cbn [insertByOverlap].
  - repeat constructor.
  - destruct (Nat.leb_spec (overlap query y) (overlap query x)) as [Hle | Hlt].
    + constructor; [constructor; assumption |].
      constructor; [exact Hle |].
      eapply Forall_impl; [| exact Hall]. cbn. intros d Hd. lia.
    + constructor; [exact IH |].
      apply (Permutation_Forall (x := x :: ranked)).
      * symmetry. apply insertByOverlap_perm.
      * constructor; [lia | exact Hall].
Qed.

Lemma rankDocs_sorted (query : string) (docs : list EvidenceDoc.t) :
  byOverlap query (rankDocs query docs).
Proof.
  induction docs as [| x docs IH]; cbn [rankDocs].
  - constructor.
  - now apply insertByOverlap_sorted.
Qed.

Lemma rankDocs_of_sorted (query : string) (docs : list EvidenceDoc.t) :
  byOverlap query docs -> rankDocs query docs = docs.
Proof.
  unfold byOverlap. induction 1 as [| x docs Hsorted IH Hall];
    [reflexivity |].
  cbn [rankDocs]. rewrite IH.
  destruct docs as [| y docs]; [reflexivity |].
  cbn [insertByOverlap]. inversion Hall as [| ? ? Hy _]; subst.
  apply Nat.leb_le in Hy. now rewrite Hy.
Qed.

(** In a list in order of decreasing overlap the documents with some
    overlap come first. *)
Lemma byOverlap_split (query : string) (docs : list EvidenceDoc.t) :
  byOverlap query docs ->
  docs = (filter (hasOverlap query) docs
          ++ filter (fun d => negb (hasOverlap query d)) docs)%list.
Proof.
  unfold byOverlap. induction 1 as [| x docs Hsorted IH Hall];
    [reflexivity |].
  cbn [filter]. destruct (hasOverlap query x) eqn:Hx; cbn [negb app].
  - now rewrite <- IH.
  - assert (Hnone : forall d, In d docs -> hasOverlap query d = false).
    { intros d Hd. rewrite Forall_forall in Hall. specialize (Hall d Hd).
      unfold hasOverlap in *. apply Nat.ltb_ge in Hx. apply Nat.ltb_ge. lia. }
    assert (H1 : filter (hasOverlap query) docs = []).
    { clear -Hnone. induction docs as [| d docs IH]; [reflexivity |].
      cbn [filter]. rewrite (Hnone d (or_introl eq_refl)).
      apply IH. intros e He. apply Hnone. now right. }
    assert (H2 : filter (fun d => negb (hasOverlap query d)) docs = docs).
    { clear -Hnone. induction docs as [| d docs IH]; [reflexivity |].
      cbn [filter]. rewrite (Hnone d (or_introl eq_refl)). cbn [negb].
      f_equal. apply IH. intros e He. apply Hnone. now right. }
    rewrite H1, H2. reflexivity.
Qed.

Lemma StronglySorted_app_inv {A : Type} (R : A -> A -> Prop)
    (a b : list A) :
  StronglySorted R (a ++ b) ->
  StronglySorted R a
  /\ forall x y, In x a -> In y b -> R x y.
Proof.
  induction a as [| h a IH]; cbn [app]; intros Hs.
  - split; [constructor | intros x y []].
  - inversion Hs as [| ? ? Hs' Hall]; subst.
    destruct (IH Hs') as [Ha Hab]. split.
    + constructor; [exact Ha |].
      apply Forall_forall. intros x Hx. rewrite Forall_forall in Hall.
      apply Hall. apply in_or_app. now left.
    + intros x y [<- | Hx] Hy.
      * rewrite Forall_forall in Hall. apply Hall. apply in_or_app.
        now right.
      * now apply Hab.
Qed.

Lemma StronglySorted_filter {A : Type} (R : A -> A -> Prop)
    (p : A -> bool) (l : list A) :
  StronglySorted R l -> StronglySorted R (filter p l).
Proof.
  induction 1 as [| x l Hs IH Hall]; cbn [filter]; [constructor |].
  destruct (p x); [| exact IH].
  constructor; [exact IH |].
  apply Forall_forall. intros y Hy. apply filter_In in Hy as [Hy _].
  rewrite Forall_forall in Hall. now apply Hall.
Qed.

(** X14.  [searchEvidence] returns the blocks of the documents with the
    largest keyword overlap, at most three, in order of decreasing
    overlap, and only documents with some overlap; every document left
    out either has no overlap or does not overlap more than any of the
    three that are shown.  When no document has any overlap (a query
    without a word of three letters, for one) it returns the blocks of
    all the documents in their own order. *)
Theorem searchEvidence_top_three (evidence : list EvidenceDoc.t)
    (query : string) :
  (Forall (fun d => overlap query d = 0%nat) evidence
   /\ searchEvidence evidence query = renderEvidence evidence)
  \/ exists shown hidden : list EvidenceDoc.t,
       searchEvidence evidence query = renderEvidence shown
       /\ shown <> []
       /\ (List.length shown <= 3)%nat
       /\ Permutation evidence (shown ++ hidden)
       /\ Forall (fun d => (0 < overlap query d)%nat) shown
       /\ byOverlap query shown
       /\ Forall (fun h =>
                    overlap query h = 0%nat
                    \/ (List.length shown = 3%nat
                        /\ Forall (fun d => (overlap query h
                                             <= overlap query d)%nat)
                             shown))
            hidden.
Proof.
  rewrite searchEvidence_ranked.
  pose proof (rankDocs_perm query evidence) as Hperm.
  pose proof (rankDocs_sorted query evidence) as Hsorted.
  pose proof (byOverlap_split query _ Hsorted) as Hsplit.
  set (ranked := rankDocs query evidence) in *.
  set (pos := filter (hasOverlap query) ranked) in *.
  set (zeros := filter (fun d => negb (hasOverlap query d)) ranked) in *.
  assert (Hpos : Forall (fun d => (0 < overlap query d)%nat) pos).
  { apply Forall_forall. intros d Hd. apply filter_In in Hd as [_ Hd].
    now apply Nat.ltb_lt in Hd. }
  assert (Hzeros : Forall (fun d => overlap query d = 0%nat) zeros).
  { apply Forall_forall. intros d Hd. apply filter_In in Hd as [_ Hd].
    apply negb_true_iff, Nat.ltb_ge in Hd. lia. }
  destruct (firstn 3 pos) as [| d top] eqn:Htop.
  - left. split; [| reflexivity].
    assert (Hnil : pos = []).
    { destruct pos; [reflexivity | discriminate]. }
    rewrite Hnil in Hsplit. cbn [app] in Hsplit.
    apply (Permutation_Forall (x := ranked)); [exact Hperm |].
    rewrite Hsplit. exact Hzeros.
  - right. rewrite <- Htop.
    exists (firstn 3 pos), (skipn 3 pos ++ zeros)%list.
    assert (Hpossorted : byOverlap query pos)
      by (apply StronglySorted_filter; exact Hsorted).
    rewrite <- (firstn_skipn 3 pos) in Hpossorted.
    apply StronglySorted_app_inv in Hpossorted as [Hshown Hcross].
    split; [reflexivity |].
    split; [rewrite Htop; discriminate |].
    split; [apply firstn_le_length |].
    split.
    { rewrite app_assoc, (firstn_skipn 3 pos), <- Hsplit.
      symmetry. exact Hperm. }
    split.
    { apply Forall_forall. intros x Hx. rewrite Forall_forall in Hpos.
      apply Hpos. rewrite <- (firstn_skipn 3 pos). apply in_or_app.
      now left. }
    split; [exact Hshown |].
    apply Forall_app. split.
    + apply Forall_forall. intros h Hh. right. split.
      * destruct (Nat.le_gt_cases (List.length pos) 3) as [Hle | Hgt].
        -- rewrite skipn_all2 in Hh by exact Hle. contradiction.
        -- rewrite length_firstn. lia.
      * apply Forall_forall. intros x Hx. now apply Hcross.
    + eapply Forall_impl; [| exact Hzeros]. cbn. intros h Hh. now left.
Qed.

(** X15.  Ties keep the order of the documents (the sort is stable):
    when the documents already come in order of decreasing overlap,
    [searchEvidence] shows the first three of them that have some
    overlap, in that order, or all of them when none has any. *)
Theorem searchEvidence_stable (evidence : list EvidenceDoc.t)
    (query : string) :
  byOverlap query evidence ->
  searchEvidence evidence query
  = match firstn 3 (filter (hasOverlap query) evidence) with
    | [] => renderEvidence evidence
    | top => renderEvidence top
    end.
Proof.
  intros Hsorted.
  rewrite searchEvidence_ranked, (rankDocs_of_sorted query evidence Hsorted).
  reflexivity.
Qed.

Lemma searchEvidence_stable_witness :
  byOverlap "React and Rust?" skillsAndBio
  /\ searchEvidence skillsAndBio "React and Rust?"
     = renderEvidence skillsAndBio.
Proof.
  assert (H : byOverlap "React and Rust?" skillsAndBio).
  { unfold byOverlap, skillsAndBio.
    repeat (constructor; try (vm_compute; lia)). }
  split; [exact H |].
  exact (searchEvidence_stable skillsAndBio "React and Rust?" H).
Defined.

(** ** [detectUrls] *)

Lemma dropChars_append (w r : string) : dropChars (String.length w) (w ++ r) = r.
Proof. induction w as [| c w IH]; [reflexivity | exact IH]. Qed.

Lemma prefix_dropChars (w s : string) :
  prefix w s = true -> s = w ++ dropChars (String.length w) s.
Proof.
  intros H. apply prefix_spec in H as [post ->].
  now rewrite dropChars_append.
Qed.

Lemma substring_dropChars (n : nat) (s : string) :
  s = substring 0 n s ++ dropChars n s.
Proof.
  revert s. induction n as [| n IH]; intros [| c s]; cbn; try reflexivity.
  now rewrite <- IH.
Qed.

Lemma substring_append (w r : string) (n : nat) :
  substring 0 (String.length w + n) (w ++ r) = w ++ substring 0 n r.
Proof.
  induction w as [| c w IH]; [reflexivity |]. cbn. now rewrite IH.
Qed.

Lemma substring_full (s : string) : substring 0 (String.length s) s = s.
Proof. induction s as [| c s IH]; cbn; [reflexivity | now rewrite IH]. Qed.

Lemma substring_span (p : ascii -> bool) (s : string) :
  forallChars p (substring 0 (span p s) s) = true
  /\ String.length (substring 0 (span p s) s) = span p s.
Proof.
  induction s as [| c s IH]; cbn; [auto |].
  destruct (p c) eqn:Hc; cbn; [| auto].
  destruct IH as [IH1 IH2]. now rewrite Hc, IH1, IH2.
Qed.

Lemma span_forallChars (p : ascii -> bool) (s : string) :
  forallChars p s = true -> span p s = String.length s.
Proof.
  induction s as [| c s IH]; cbn; [reflexivity |].
  intros H. apply andb_true_iff in H as [Hc Hs]. rewrite Hc. now rewrite IH.
Qed.

Lemma matchUrlTail_shape (s : string) (n : nat) :
  matchUrlTail s = Some n ->
  exists body,
    substring 0 n s = "://" ++ body
    /\ body <> "" /\ forallChars isUrlChar body = true.
Proof.
  unfold matchUrlTail. destruct (prefix "://" s) eqn:Hp; [| discriminate].
  cbv zeta. destruct (Nat.leb_spec 1 (span isUrlChar (dropChars 3 s)))
    as [Hone | Hnone]; [| discriminate].
  intros [= <-]. apply prefix_dropChars in Hp.
  change (String.length "://") with 3%nat in Hp.
  set (r := dropChars 3 s) in *. clearbody r. subst s.
  exists (substring 0 (span isUrlChar r) r).
  destruct (substring_span isUrlChar r) as [Hall Hlen].
  split; [| split; [| exact Hall]].
  - apply (substring_append "://").
  - intros H. rewrite H in Hlen. cbn in Hlen. lia.
Qed.

Lemma matchUrl_shape (prev : option ascii) (s : string) (n : nat) :
  matchUrl prev s = Some n -> isLink (substring 0 n s).
Proof.
  unfold matchUrl. destruct (prefix "http" s) eqn:Hp; [| discriminate].
  cbv zeta. apply prefix_dropChars in Hp.
  change (String.length "http") with 4%nat in Hp.
  set (rest := dropChars 4 s) in *. clearbody rest. subst s.
  assert (Hplain : forall k, matchUrlTail rest = Some k ->
                             isLink (substring 0 (4 + k) ("http" ++ rest))).
  { intros k Hk. apply matchUrlTail_shape in Hk as [body [Hsub [Hne Hall]]].
    exists "http://", body. split; [| auto].
    rewrite (substring_append "http"), Hsub. reflexivity. }
  destruct (prefix "s" rest) eqn:Hs.
  - apply prefix_dropChars in Hs.
    change (String.length "s") with 1%nat in Hs.
    destruct (matchUrlTail (dropChars 1 rest)) as [k |] eqn:Hk.
    + intros [= <-].
      apply matchUrlTail_shape in Hk as [body [Hsub [Hne Hall]]].
      exists "https://", body. split; [| auto].
      set (rest' := dropChars 1 rest) in *. clearbody rest'. subst rest.
      transitivity ("https" ++ substring 0 k rest');
        [exact (substring_append "https" rest' k) | now rewrite Hsub].
    + destruct (matchUrlTail rest) as [k |] eqn:Hk'; [| discriminate].
      intros [= <-]. now apply Hplain.
  - destruct (matchUrlTail rest) as [k |] eqn:Hk'; [| discriminate].
    intros [= <-]. now apply Hplain.
Qed.

Lemma matchAllFrom_occurs (m : matcher) (P : string -> Prop) (s : string) :
  (forall prev s' n, m prev s' = Some n -> P (substring 0 n s')) ->
  forall (pre : string) (skip : nat) (prev : option ascii),
    Forall (fun u => P u /\ occursIn u (pre ++ s))
      (matchAllFrom m skip prev s).
Proof.
  intros Hm. induction s as [| c rest IH]; intros pre skip prev.
  - cbn [matchAllFrom]. destruct skip; [| constructor].
    destruct (m prev "") as [n |] eqn:Hn; constructor; [| constructor].
    split; [exact (Hm _ _ _ Hn) |].
    exists pre, (dropChars n ""). now rewrite <- substring_dropChars.
  - assert (Hstep : forall k p,
               Forall (fun u => P u /\ occursIn u (pre ++ String c rest))
                 (matchAllFrom m k p rest)).
    { intros k p. specialize (IH (pre ++ String c "") k p).
      now rewrite append_assoc in IH. }
    cbn [matchAllFrom]. destruct skip; [| apply Hstep].
    destruct (m prev (String c rest)) as [n |] eqn:Hn; [| apply Hstep].
    constructor; [| apply Hstep].
    split; [exact (Hm _ _ _ Hn) |].
    exists pre, (dropChars n (String c rest)).
    now rewrite <- substring_dropChars.
Qed.

Lemma matchAllFrom_skip_all (m : matcher) (s : string)
    (prev : option ascii) :
  (forall p, m p "" = None) ->
  matchAllFrom m (String.length s) prev s = [].
Proof.
  intros Hend. revert prev. induction s as [| c s IH]; intros prev.
  - cbn. now rewrite Hend.
  - cbn [String.length matchAllFrom]. apply IH.
Qed.

Lemma prefix_append (w r : string) : prefix w (w ++ r) = true.
Proof. apply prefix_spec. now exists r. Qed.

Lemma matchUrlTail_full (body : string) :
  body <> "" -> forallChars isUrlChar body = true ->
  matchUrlTail ("://" ++ body) = Some (3 + String.length body)%nat.
Proof.
  intros Hne Hall. unfold matchUrlTail. rewrite prefix_append.
  change (dropChars 3 ("://" ++ body)) with body. cbv zeta.
  rewrite (span_forallChars _ _ Hall).
  destruct body; [contradiction | reflexivity].
Qed.

Lemma matchUrl_http (body : string) :
  body <> "" -> forallChars isUrlChar body = true ->
  matchUrl None ("http://" ++ body)
  = Some (String.length ("http://" ++ body)).
Proof.
  intros Hne Hall. unfold matchUrl.
  change ("http://" ++ body) with ("http" ++ "://" ++ body).
  rewrite (prefix_append "http" ("://" ++ body)).
  change (dropChars 4 ("http" ++ "://" ++ body)) with ("://" ++ body).
  cbv zeta. change (prefix "s" ("://" ++ body)) with false. cbv iota.
  rewrite (matchUrlTail_full body Hne Hall). reflexivity.
Qed.

Lemma matchUrl_https (body : string) :
  body <> "" -> forallChars isUrlChar body = true ->
  matchUrl None ("https://" ++ body)
  = Some (String.length ("https://" ++ body)).
Proof.
  intros Hne Hall. unfold matchUrl.
  change ("https://" ++ body) with ("http" ++ "s://" ++ body).
  rewrite (prefix_append "http" ("s://" ++ body)).
  change (dropChars 4 ("http" ++ "s://" ++ body)) with ("s://" ++ body).
  cbv zeta. change (prefix "s" ("s://" ++ body)) with true. cbv iota.
  change (dropChars 1 ("s://" ++ body)) with ("://" ++ body).
  rewrite (matchUrlTail_full body Hne Hall). reflexivity.
Qed.

Lemma matchAll_whole (m : matcher) (c : ascii) (rest : string) :
  (forall p, m p "" = None) ->
  m None (String c rest) = Some (String.length (String c rest)) ->
  matchAll m (String c rest) = [String c rest].
Proof.
  intros Hend Hm. unfold matchAll. cbn [matchAllFrom]. rewrite Hm.
  rewrite substring_full. f_equal.
  change (Nat.pred (String.length (String c rest)))
    with (String.length rest).
  now apply matchAllFrom_skip_all.
Qed.

Lemma detectUrls_link (u : string) : isLink u -> detectUrls u = [u].
Proof.
  intros [scheme [body [-> [Hscheme [Hne Hall]]]]].
  unfold detectUrls. destruct Hscheme as [-> | ->].
  - apply (matchAll_whole matchUrl "h" ("ttp://" ++ body));
      [reflexivity | exact (matchUrl_http body Hne Hall)].
  - apply (matchAll_whole matchUrl "h" ("ttps://" ++ body));
      [reflexivity | exact (matchUrl_https body Hne Hall)].
Qed.

(** X16.  Every link that [detectUrls] finds starts with "http://" or
    "https://", goes on with one or more characters and contains
    neither white space nor any of the eleven excluded characters; it
    occurs in the text; and [detectUrls] applied to the link alone gives
    back exactly that link. *)
Theorem detectUrls_links (text : string) :
  Forall (fun u => isLink u /\ occursIn u text /\ detectUrls u = [u])
    (detectUrls text).
Proof.
  pose proof (matchAllFrom_occurs matchUrl isLink text matchUrl_shape
                "" O None) as H.
  unfold detectUrls at 1, matchAll.
  eapply Forall_impl; [| exact H].
  cbn. intros u [Hlink Hocc]. split; [exact Hlink |].
  split; [exact Hocc | now apply detectUrls_link].
Qed.

(** * Further properties of the sentiment module *)

(** ** [getStrategy] *)

(** X17.  The strategy that [getStrategy] returns is decided by the
    score bands: AGGRESSIVE exactly below 20, ASSERTIVE exactly on
    20..39, DIPLOMATIC exactly on 40..69 and YIELDING exactly from 70
    up. *)
Theorem getStrategy_bands (text : string)
    (history : option (list HistoryEntry)) :
  let finalScore := score (analyzeSentiment text history) in
  (getStrategy text history = AGGRESSIVE <-> finalScore < 20)
  /\ (getStrategy text history = ASSERTIVE <-> 20 <= finalScore < 40)
  /\ (getStrategy text history = DIPLOMATIC <-> 40 <= finalScore < 70)
  /\ (getStrategy text history = YIELDING <-> 70 <= finalScore).
Proof.
  cbv zeta. unfold getStrategy, analyzeSentiment. cbn [strategy score].
  generalize (Z.max 0 (Z.min (Math_round (totalScore text history)) 100)).
  intros s. unfold getMoodFromScore.
  destruct (Z.leb_spec 70 s); [| destruct (Z.leb_spec 40 s);
                                 [| destruct (Z.leb_spec 20 s)]];
    cbn; repeat split; intros; solve [lia | discriminate | reflexivity].
Qed.

(** ** One retained turn, neutral turns *)

Lemma weightedSum_single (m : HistoryEntry) :
  (weightedSum loopWeight 0 [m]
   == inject_Z (analyzeTextScore (content m)))%Q.
Proof.
  cbn [weightedSum]. change (loopWeight 0) with 1%Q. ring.
Qed.

(** X18.  When the history holds exactly one user-authored turn, that
    turn counts in full: the result is the one of the sum of its raw
    score and the raw score of the current text, clamped. *)
Theorem analyzeSentiment_single_turn (text : string)
    (history : option (list HistoryEntry)) (m : HistoryEntry) :
  retainedTurns history = [m] ->
  analyzeSentiment text history
  = resultOfScore
      (clamp100 (analyzeTextScore (content m) + analyzeTextScore text)).
Proof.
  intros Hm. apply analyzeSentiment_of_total.
  rewrite totalScore_weights, Hm, weightedSum_single, inject_Z_plus.
  reflexivity.
Qed.

Lemma analyzeSentiment_single_turn_witness :
  retainedTurns (Some [assistant "Objection!"; user "bad"; assistant "ok"])
  = [user "bad"]
  /\ analyzeSentiment "wrong"
       (Some [assistant "Objection!"; user "bad"; assistant "ok"])
     = resultOfScore
         (clamp100 (analyzeTextScore (content (user "bad"))
                    + analyzeTextScore "wrong")).
Proof.
  split; [reflexivity |].
  apply (analyzeSentiment_single_turn "wrong"
           (Some [assistant "Objection!"; user "bad"; assistant "ok"])
           (user "bad")).
  reflexivity.
Defined.

(** ** How much the history can add *)

Lemma loopWeight_pos (i : nat) : (0 < loopWeight i)%Q.
Proof. unfold loopWeight. apply Qpower_0_lt. reflexivity. Qed.

Lemma inject_Z_nonneg (z : Z) : 0 <= z -> (0 <= inject_Z z)%Q.
Proof. intros H. unfold Qle. cbn. lia. Qed.

Lemma inject_Z_nonpos (z : Z) : z <= 0 -> (inject_Z z <= 0)%Q.
Proof. intros H. unfold Qle. cbn. lia. Qed.

Lemma weightedSum_sign (turns : list HistoryEntry) :
  forall i,
    (Forall (fun m => 0 <= analyzeTextScore (content m)) turns ->
     (0 <= weightedSum loopWeight i turns)%Q)
    /\ (Forall (fun m => analyzeTextScore (content m) <= 0) turns ->
        (weightedSum loopWeight i turns <= 0)%Q).
Proof.
  induction turns as [| m turns IH]; intros i.
  - cbn [weightedSum]. split; intros _; lra.
  - cbn [weightedSum]. destruct (IH (S i)) as [IHpos IHneg].
    pose proof (loopWeight_pos i) as Hw. split; intros Hall;
      inversion Hall as [| ? ? Hm Hrest]; subst.
    + specialize (IHpos Hrest).
      pose proof (inject_Z_nonneg _ Hm).
      nra.
    + specialize (IHneg Hrest).
      pose proof (inject_Z_nonpos _ Hm).
      nra.
Qed.

Lemma Math_round_monotone (a b : Q) :
  (a <= b)%Q -> Math_round a <= Math_round b.
Proof.
  intros Hab. unfold Math_round. apply Qfloor_resp_le.
  apply Qplus_le_l. exact Hab.
Qed.

Lemma score_monotone (text : string) (h1 h2 : option (list HistoryEntry)) :
  (totalScore text h1 <= totalScore text h2)%Q ->
  score (analyzeSentiment text h1) <= score (analyzeSentiment text h2).
Proof.
  intros Hle. unfold analyzeSentiment. cbn [score].
  pose proof (Math_round_monotone _ _ Hle). lia.
Qed.

(** X19.  Turns that each score zero or more never lower the result,
    and turns that each score zero or less never raise it: with such a
    history the score is at least, respectively at most, the score of
    the current text without any history. *)
Theorem analyzeSentiment_history_sign (text : string)
    (history : option (list HistoryEntry)) :
  (Forall (fun m => 0 <= analyzeTextScore (content m))
     (retainedTurns history) ->
   score (analyzeSentiment text None)
   <= score (analyzeSentiment text history))
  /\ (Forall (fun m => analyzeTextScore (content m) <= 0)
        (retainedTurns history) ->
      score (analyzeSentiment text history)
      <= score (analyzeSentiment text None)).
Proof.
  destruct (weightedSum_sign (retainedTurns history) 0) as [Hpos Hneg].
  split; intros Hall; apply score_monotone;
    rewrite !totalScore_weights; cbn [retainedTurns weightedSum].
  - specialize (Hpos Hall). lra.
  - specialize (Hneg Hall). lra.
Qed.

Lemma analyzeSentiment_history_sign_witness :
  Forall (fun m => 0 <= analyzeTextScore (content m))
    (retainedTurns (Some [user "bad"; user "ok"]))
  /\ score (analyzeSentiment "wrong" None)
     <= score (analyzeSentiment "wrong" (Some [user "bad"; user "ok"])).
Proof.
  assert (H : Forall (fun m => 0 <= analyzeTextScore (content m))
                (retainedTurns (Some [user "bad"; user "ok"]))).
  { apply Forall_forall. intros m Hm. cbn in Hm.
    destruct Hm as [<- | [<- | []]]; vm_compute; intros H;
      discriminate H. }
  split; [exact H |].
  exact (proj1 (analyzeSentiment_history_sign "wrong"
                  (Some [user "bad"; user "ok"])) H).
Defined.

(** ** Capitals *)

Lemma isUpperAZ_word (c : ascii) : isUpperAZ c = true -> isWordChar c = true.
Proof. unfold isUpperAZ, isWordChar. intros ->. reflexivity. Qed.

Lemma span_get (p : ascii -> bool) (s : string) (j : nat) :
  (j < span p s)%nat -> exists c, get j s = Some c /\ p c = true.
Proof.
  revert j. induction s as [| c s IH]; intros j Hj; cbn [span] in Hj;
    [lia |].
  destruct (p c) eqn:Hc; [| lia].
  destruct j as [| j]; [exists c; auto |].
  cbn [get]. apply IH. lia.
Qed.

Lemma span_stop (p : ascii -> bool) (s : string) :
  match get (span p s) s with
  | Some c => p c = false
  | None => True
  end.
Proof.
  induction s as [| c s IH]; cbn [span]; [exact I |].
  destruct (p c) eqn:Hc; [exact IH | cbn; exact Hc].
Qed.

Lemma backtrackCaps_some (s : string) (j k : nat) :
  backtrackCaps s j = Some k ->
  (3 <= k <= j)%nat
  /\ wordBoundary (get (Nat.pred k) s) (get k s) = true.
Proof.
  induction j as [| j IH]; cbn [backtrackCaps]; [discriminate |].
  destruct ((3 <=? S j)%nat && wordBoundary (get j s) (get (S j) s))
    eqn:Htest.
  - intros [= <-]. apply andb_true_iff in Htest as [H3 Hb].
    apply Nat.leb_le in H3. cbn [Nat.pred]. split; [lia | exact Hb].
  - intros H. destruct (IH H) as [Hk Hb]. split; [lia | exact Hb].
Qed.

(** X21.  The all-caps pattern matches whole words only: there is a
    match at a position exactly when a run of three or more capitals
    A-Z starts there, the character before it is not a letter, digit or
    underscore, and neither is the character after the run; the match is
    then the whole run, never a part of it. *)
Theorem matchCaps_whole_word (prev : option ascii) (s : string) (k : nat) :
  matchCaps prev s = Some k
  <-> k = span isUpperAZ s
      /\ (3 <= k)%nat
      /\ isWordAt prev = false
      /\ isWordAt (get k s) = false.
Proof.
  unfold matchCaps. split.
  - destruct (wordBoundary prev (get 0 s)) eqn:Hstart; [| discriminate].
    intros Hk. apply backtrackCaps_some in Hk as [[H3 Hle] Hend].
    destruct k as [| k']; [lia |]. cbn [Nat.pred] in Hend.
    destruct (span_get isUpperAZ s k' ltac:(lia)) as [c [Hc Hup]].
    destruct (span_get isUpperAZ s 0 ltac:(lia)) as [c0 [Hc0 Hup0]].
    rewrite Hc in Hend. rewrite Hc0 in Hstart.
    unfold wordBoundary in Hstart, Hend. cbn [isWordAt] in Hstart, Hend.
    rewrite (isUpperAZ_word _ Hup) in Hend.
    rewrite (isUpperAZ_word _ Hup0) in Hstart.
    assert (Hafter : isWordAt (get (S k') s) = false)
      by (destruct (isWordAt (get (S k') s)); [discriminate | reflexivity]).
    assert (Hbefore : isWordAt prev = false)
      by (destruct (isWordAt prev); [discriminate | reflexivity]).
    repeat split; try assumption.
    destruct (Nat.eq_dec (S k') (span isUpperAZ s)) as [Heq | Hne];
      [exact Heq |].
    destruct (span_get isUpperAZ s (S k') ltac:(lia)) as [c' [Hc' Hup']].
    rewrite Hc' in Hafter. cbn [isWordAt] in Hafter.
    rewrite (isUpperAZ_word _ Hup') in Hafter. discriminate.
  - intros [-> [H3 [Hbefore Hafter]]].
    destruct (span_get isUpperAZ s 0 ltac:(lia)) as [c0 [Hc0 Hup0]].
    unfold wordBoundary at 1. rewrite Hbefore, Hc0. cbn [isWordAt].
    rewrite (isUpperAZ_word _ Hup0). cbn [xorb].
    destruct (span isUpperAZ s) as [| k'] eqn:Hspan; [lia |].
    cbn [backtrackCaps].
    assert (Hk' : (k' < span isUpperAZ s)%nat) by lia.
    destruct (span_get isUpperAZ s k' Hk') as [c [Hc Hup]].
    unfold wordBoundary. rewrite Hc, Hafter. cbn [isWordAt].
    rewrite (isUpperAZ_word _ Hup).
    apply Nat.leb_le in H3. now rewrite H3.
Qed.

Lemma lowerChar_not_upper (c : ascii) : isUpperAZ (lowerChar c) = false.
Proof. destruct c as [[] [] [] [] [] [] [] []]; reflexivity. Qed.

Lemma lowerChar_bang (c : ascii) :
  isChar "!" (lowerChar c) = isChar "!" c
  /\ isChar "?" (lowerChar c) = isChar "?" c.
Proof. destruct c as [[] [] [] [] [] [] [] []]; split; reflexivity. Qed.

Lemma matchCaps_lower (prev : option ascii) (s : string) :
  matchCaps prev (toLowerCase s) = None.
Proof.
  unfold matchCaps.
  destruct (wordBoundary prev (get 0 (toLowerCase s))); [| reflexivity].
  destruct s as [| c s]; [reflexivity |].
  cbn [toLowerCase span]. now rewrite lowerChar_not_upper.
Qed.

Lemma matchCount_caps_lower (s : string) :
  forall skip prev, matchCountFrom matchCaps skip prev (toLowerCase s) = O.
Proof.
  induction s as [| c s IH]; intros skip prev.
  - cbn [toLowerCase matchCountFrom]. destruct skip; [| reflexivity].
    pose proof (matchCaps_lower prev "") as H. cbn [toLowerCase] in H.
    now rewrite H.
  - cbn [toLowerCase matchCountFrom]. destruct skip; [| apply IH].
    change (String (lowerChar c) (toLowerCase s))
      with (toLowerCase (String c s)).
    rewrite matchCaps_lower. apply IH.
Qed.

Lemma span_run_lower (c0 : ascii) (s : string) :
  (forall c, isChar c0 (lowerChar c) = isChar c0 c) ->
  span (isChar c0) (toLowerCase s) = span (isChar c0) s.
Proof.
  intros Hc0. induction s as [| c s IH]; [reflexivity |].
  cbn [toLowerCase span]. now rewrite Hc0, IH.
Qed.

Lemma matchCount_run_lower (c0 : ascii) (s : string) :
  (forall c, isChar c0 (lowerChar c) = isChar c0 c) ->
  forall skip prev prev',
    matchCountFrom (matchRun2 c0) skip prev (toLowerCase s)
    = matchCountFrom (matchRun2 c0) skip prev' s.
Proof.
  intros Hc0. induction s as [| c s IH]; intros skip prev prev'.
  - reflexivity.
  - cbn [toLowerCase matchCountFrom]. destruct skip; [| apply IH].
    change (String (lowerChar c) (toLowerCase s))
      with (toLowerCase (String c s)).
    unfold matchRun2. rewrite (span_run_lower c0 _ Hc0).
    destruct (2 <=? span (isChar c0) (String c s))%nat;
      [f_equal |]; apply IH.
Qed.

(** X22.  Capital letters matter to the score only through the
    all-caps words: the raw score of a text is the raw score of its
    lower-cased form plus 12 for every all-caps word. *)
Theorem analyzeTextScore_capitals (text : string) :
  analyzeTextScore text
  = analyzeTextScore (toLowerCase text)
    + 12 * Z.of_nat (matchCount matchCaps text).
Proof.
  rewrite (analyzeTextScore_decomposition (toLowerCase text)).
  rewrite (analyzeTextScore_decomposition text).
  rewrite toLowerCase_idempotent. unfold matchCount.
  rewrite matchCount_caps_lower.
  rewrite (matchCount_run_lower "!" text
             (fun c => proj1 (lowerChar_bang c)) O None None).
  rewrite (matchCount_run_lower "?" text
             (fun c => proj2 (lowerChar_bang c)) O None None).
  lia.
Qed.

(** X23.  The three lexicons move the raw score by at least -128 and at
    most +400, whatever the text: what is left of the score after the
    12 per all-caps word and the 8 per punctuation run lies between
    those two values, so that no text scores below -128. *)
Theorem analyzeTextScore_lexicon_range (text : string) :
  let shouting :=
    12 * Z.of_nat (matchCount matchCaps text)
    + 8 * Z.of_nat (matchCount (matchRun2 "!") text
                    + matchCount (matchRun2 "?") text) in
  - 128 <= analyzeTextScore text - shouting <= 400
  /\ - 128 <= analyzeTextScore text.
Proof.
  cbv zeta. rewrite analyzeTextScore_decomposition.
  assert (Hcount : forall lexicon,
             0 <= presentCount (toLowerCase text) lexicon
             <= Z.of_nat (List.length lexicon)).
  { intros lexicon. unfold presentCount, entriesPresent.
    pose proof (filter_length_le (includes (toLowerCase text)) lexicon).
    lia. }
  pose proof (Hcount ANGER_WORDS) as Ha.
  pose proof (Hcount SKEPTICAL_PHRASES) as Hs.
  pose proof (Hcount POSITIVE_WORDS) as Hp.
  change (Z.of_nat (List.length ANGER_WORDS)) with 16 in Ha.
  change (Z.of_nat (List.length SKEPTICAL_PHRASES)) with 16 in Hs.
  change (Z.of_nat (List.length POSITIVE_WORDS)) with 16 in Hp.
  lia.
Qed.

(** * [findRoute] *)

Lemma findProject_some (lowerText : string) (ps : list Project.t)
    (action : RouteAction.t) :
  findProject lowerText ps = Some action ->
  exists before p after,
    ps = (before ++ p :: after)%list
    /\ Forall (fun q => mentions lowerText q = false) before
    /\ mentions lowerText p = true
    /\ action = projectAction p.
Proof.
  induction ps as [| q ps IH]; cbn [findProject]; [discriminate |].
  fold (mentions lowerText q). destruct (mentions lowerText q) eqn:Hq.
  - intros [= <-]. exists [], q, ps. auto.
  - intros H. destruct (IH H) as [before [p [after [-> [Hb [Hp Ha]]]]]].
    exists (q :: before), p, after. auto.
Qed.

Lemma findProject_none (lowerText : string) (ps : list Project.t) :
  findProject lowerText ps = None
  <-> Forall (fun q => mentions lowerText q = false) ps.
Proof.
  induction ps as [| q ps IH]; cbn [findProject].
  - split; [constructor | reflexivity].
  - fold (mentions lowerText q). destruct (mentions lowerText q) eqn:Hq.
    + split; [discriminate |]. intros H. inversion H; congruence.
    + rewrite IH. split; [now constructor | intros H; now inversion H].
Qed.

Lemma findKey_some (lowerText : string) (entries : list (string * string))
    (action : RouteAction.t) :
  findKey lowerText entries = Some action ->
  exists before entry after,
    entries = (before ++ entry :: after)%list
    /\ Forall (fun e => includes lowerText (fst e) = false) before
    /\ includes lowerText (fst entry) = true
    /\ action = keyAction entry.
Proof.
  induction entries as [| [k p] entries IH]; cbn [findKey];
    [discriminate |].
  destruct (includes lowerText k) eqn:Hk.
  - intros [= <-]. exists [], (k, p), entries. auto.
  - intros H. destruct (IH H) as [before [e [after [-> [Hb [He Ha]]]]]].
    exists ((k, p) :: before), e, after. auto.
Qed.

Lemma findKey_none (lowerText : string) (entries : list (string * string)) :
  findKey lowerText entries = None
  <-> Forall (fun e => includes lowerText (fst e) = false) entries.
Proof.
  induction entries as [| [k p] entries IH]; cbn [findKey].
  - split; [constructor | reflexivity].
  - destruct (includes lowerText k) eqn:Hk.
    + split; [discriminate |]. intros H. inversion H; cbn in *; congruence.
    + rewrite IH. split; [now constructor | intros H; now inversion H].
Qed.

(** X24.  [findRoute] finds nothing exactly when the lower-cased text
    mentions no project (by title or slug) and contains no key of the
    route map.  A text that mentions a project always leads to that
    project's page, with the label "View" and the title of the first
    project of the list that is mentioned, whatever keys of the map it
    also contains. *)
Theorem findRoute_spec (text : string) :
  (findRoute text = None
   <-> Forall (fun p => mentions (toLowerCase text) p = false) projects
       /\ Forall (fun e => ~ occursIn (fst e) (toLowerCase text)) ROUTE_MAP)
  /\ (forall p, In p projects -> mentions (toLowerCase text) p = true ->
      exists before first after,
        projects = (before ++ first :: after)%list
        /\ Forall (fun q => mentions (toLowerCase text) q = false) before
        /\ mentions (toLowerCase text) first = true
        /\ findRoute text = Some (projectAction first)).
Proof.
  unfold findRoute. cbv zeta. split.
  - destruct (findProject (toLowerCase text) projects) as [a |] eqn:Hp.
    + split; [discriminate |]. intros [H _].
      apply findProject_none in H. congruence.
    + apply findProject_none in Hp. rewrite findKey_none. split.
      * intros Hk. split; [exact Hp |].
        eapply Forall_impl; [| exact Hk]. cbn. intros e He Hocc.
        apply includes_spec in Hocc. congruence.
      * intros [_ Hk]. eapply Forall_impl; [| exact Hk]. cbn.
        intros e He. destruct (includes (toLowerCase text) (fst e)) eqn:Hi;
          [| reflexivity].
        exfalso. apply He. now apply includes_spec.
  - intros p Hin Hm.
    destruct (findProject (toLowerCase text) projects) as [a |] eqn:Hp.
    + apply findProject_some in Hp
        as [before [first [after [Heq [Hb [Hf Ha]]]]]].
      exists before, first, after. subst a. auto.
    + apply findProject_none in Hp. rewrite Forall_forall in Hp.
      rewrite (Hp p Hin) in Hm. discriminate.
Qed.

(** X25.  Four entries of the route map can never be chosen: the keys
    interlock, altshift, xdevverse and typorush are slugs of projects,
    so a text that contains one of them is answered by the project loop
    (or, for typorush, at the latest by the key typo).  [findRoute]
    never returns the label "Go to" followed by one of these four
    names. *)
Theorem findRoute_shadowed_keys (text : string) (action : RouteAction.t) :
  findRoute text = Some action ->
  ~ In (RouteAction.label action)
      (map (fun key => RouteAction.label (keyAction (key, "")))
         ["interlock"; "altshift"; "xdevverse"; "typorush"]).
Proof.
  unfold findRoute. cbv zeta.
  destruct (findProject (toLowerCase text) projects) as [a |] eqn:Hp.
  - intros [= ->]. apply findProject_some in Hp
      as [before [p [after [Heq [_ [_ ->]]]]]].
    assert (Hin : In p projects) by (rewrite Heq; apply in_elt).
    cbn [projects In] in Hin.
    repeat (destruct Hin as [<- | Hin];
            [cbn; intros H; repeat (destruct H as [H | H];
                                    [discriminate H |]); exact H |]).
    contradiction.
  - apply findProject_none in Hp.
    assert (Hslug : forall p, In p projects ->
                              includes (toLowerCase text) (Project.slug p)
                              = false).
    { intros p Hin. rewrite Forall_forall in Hp. specialize (Hp p Hin).
      unfold mentions in Hp. now apply orb_false_iff in Hp as [_ Hp]. }
    pose proof (Hslug {| Project.slug := "interlock";
                         Project.title := "Interlock" |}
                  ltac:(cbn; tauto)) as H1.
    pose proof (Hslug {| Project.slug := "altshift";
                         Project.title := "AltShift" |}
                  ltac:(cbn; tauto)) as H2.
    pose proof (Hslug {| Project.slug := "xdevverse";
                         Project.title := "XDevVerse" |}
                  ltac:(cbn; tauto)) as H3.
    pose proof (Hslug {| Project.slug := "typorush";
                         Project.title := "TypoRush" |}
                  ltac:(cbn; tauto)) as H4.
    cbn [Project.slug] in H1, H2, H3, H4.
    intros Hk. apply findKey_some in Hk
      as [before [e [after [Heq [_ [He ->]]]]]].
    assert (Hin : In e ROUTE_MAP) by (rewrite Heq; apply in_elt).
    cbn [ROUTE_MAP In] in Hin.
    repeat (destruct Hin as [<- | Hin];
            [cbn [fst] in He; try congruence;
             cbn; intros H; repeat (destruct H as [H | H];
                                    [discriminate H |]); exact H |]).
    contradiction.
Qed.

Lemma findRoute_shadowed_keys_witness :
  findRoute "Show me TypoRush, the typing game"
  = Some (projectAction {| Project.slug := "typorush";
                           Project.title := "TypoRush" |})
  /\ ~ In (RouteAction.label
             (projectAction {| Project.slug := "typorush";
                               Project.title := "TypoRush" |}))
         (map (fun key => RouteAction.label (keyAction (key, "")))
            ["interlock"; "altshift"; "xdevverse"; "typorush"]).
Proof.
  split; [reflexivity |].
  apply (findRoute_shadowed_keys "Show me TypoRush, the typing game").
  reflexivity.
Defined.

(** * Sprites and lexicon entries *)

Lemma substring_shift (a k : nat) (s : string) :
  substring a k s = substring 0 k (dropChars a s).
Proof.
  revert s. induction a as [| a IH]; intros s; [reflexivity |].
  destruct s as [| c s]; [destruct k; reflexivity | apply IH].
Qed.

Lemma length_dropChars (a : nat) (s : string) :
  String.length (dropChars a s) = (String.length s - a)%nat.
Proof.
  revert s. induction a as [| a IH]; intros s; cbn [dropChars].
  - lia.
  - destruct s as [| c s]; [reflexivity | apply IH].
Qed.

Lemma endsWith_spec (s suffix : string) :
  endsWith s suffix = true <-> exists base, s = base ++ suffix.
Proof.
  unfold endsWith. cbv zeta. rewrite andb_true_iff, Nat.leb_le, String.eqb_eq.
  split.
  - intros [Hle Hsub]. rewrite substring_shift in Hsub.
    set (d := dropChars (String.length s - String.length suffix) s) in *.
    assert (Hd : String.length d = String.length suffix)
      by (subst d; rewrite length_dropChars; lia).
    rewrite <- Hd, substring_full in Hsub.
    exists (substring 0 (String.length s - String.length suffix) s).
    pose proof (substring_dropChars
                  (String.length s - String.length suffix) s) as Hs.
    fold d in Hs. rewrite Hsub in Hs. exact Hs.
  - intros [base ->]. rewrite length_append. split; [lia |].
    replace (String.length base + String.length suffix
             - String.length suffix)%nat
      with (String.length base) by lia.
    rewrite substring_shift, dropChars_append. apply substring_full.
Qed.

(** X26.  A sprite counts as animated exactly when its path, in lower
    case, ends with ".gif", ".webp" or ".apng"; the letter case of the
    path does not matter, and [createSpriteConfig] keeps the path as it
    was given. *)
Theorem isAnimatedSprite_spec (src : string) :
  (isAnimatedSprite src = true
   <-> exists base ext,
         In ext [".gif"; ".webp"; ".apng"]
         /\ toLowerCase src = base ++ ext)
  /\ isAnimatedSprite (toLowerCase src) = isAnimatedSprite src
  /\ createSpriteConfig src
     = {| SpriteConfig.src := src;
          SpriteConfig.isAnimated := isAnimatedSprite (toLowerCase src) |}.
Proof.
  assert (Hlower : isAnimatedSprite (toLowerCase src) = isAnimatedSprite src).
  { unfold isAnimatedSprite. now rewrite toLowerCase_idempotent. }
  split; [| split; [exact Hlower |]].
  - unfold isAnimatedSprite. cbv zeta. rewrite existsb_exists. split.
    + intros [ext [Hin Hends]]. apply endsWith_spec in Hends as [base Hb].
      exists base, ext. auto.
    + intros [base [ext [Hin Hb]]]. exists ext. split; [exact Hin |].
      apply endsWith_spec. now exists base.
  - unfold createSpriteConfig. now rewrite Hlower.
Qed.

Lemma NoDup_lexicons :
  NoDup ANGER_WORDS /\ NoDup SKEPTICAL_PHRASES /\ NoDup POSITIVE_WORDS.
Proof.
  repeat split;
    repeat (constructor;
            [cbn [In]; intros H;
             repeat (destruct H as [H | H]; [discriminate H |]); exact H |]);
    constructor.
Qed.

Lemma entriesPresent_occurs (lower : string) (lexicon : list string)
    (word : string) :
  In word (entriesPresent lower lexicon)
  <-> In word lexicon /\ occursIn word lower.
Proof.
  unfold entriesPresent. rewrite filter_In, includes_spec. tauto.
Qed.

(** X27.  The lexicon part of [analyzeTextScore] is decided by
    substring occurrence in the lower-cased text: the raw score of a
    text is 15 times the number of anger words that occur somewhere in
    the lower-cased text, plus 10 times the number of skeptical phrases
    that occur in it, minus 8 times the number of positive words that
    occur in it, plus the 12 and 8 per match of the patterns.  An entry
    inside a longer word counts: "badge" scores 15 for "bad", and
    "BADGE" scores 15 + 12. *)
Theorem analyzeTextScore_substring_matching (text : string) :
  (exists angry skeptical positive : list string,
      NoDup angry /\ NoDup skeptical /\ NoDup positive
      /\ (forall w, In w angry
                    <-> In w ANGER_WORDS /\ occursIn w (toLowerCase text))
      /\ (forall w, In w skeptical
                    <-> In w SKEPTICAL_PHRASES
                        /\ occursIn w (toLowerCase text))
      /\ (forall w, In w positive
                    <-> In w POSITIVE_WORDS /\ occursIn w (toLowerCase text))
      /\ analyzeTextScore text
         = 15 * Z.of_nat (List.length angry)
           + 10 * Z.of_nat (List.length skeptical)
           - 8 * Z.of_nat (List.length positive)
           + 12 * Z.of_nat (matchCount matchCaps text)
           + 8 * Z.of_nat (matchCount (matchRun2 "!") text
                           + matchCount (matchRun2 "?") text))
  /\ analyzeTextScore "badge" = 15
  /\ analyzeTextScore "BADGE" = 27.
Proof.
  destruct NoDup_lexicons as [Ha [Hs Hp]].
  split; [| split; reflexivity].
  exists (entriesPresent (toLowerCase text) ANGER_WORDS),
    (entriesPresent (toLowerCase text) SKEPTICAL_PHRASES),
    (entriesPresent (toLowerCase text) POSITIVE_WORDS).
  split; [now apply NoDup_filter |].
  split; [now apply NoDup_filter |].
  split; [now apply NoDup_filter |].
  split; [intros w; apply entriesPresent_occurs |].
  split; [intros w; apply entriesPresent_occurs |].
  split; [intros w; apply entriesPresent_occurs |].
  apply analyzeTextScore_decomposition.
Qed.
